(** * Expense sharing: split calculation and balance netting

    A shallow embedding of the server controllers of the expense-sharing
    application:

    - [createExpense]      (expenseController.js)
    - [createSettlement]   (settlementController.js)
    - [getGroupBalances], [getUserBalances]  (balanceController.js)
    - [createGroup], [getUserGroups], [getGroupById], [addGroupMember]
                           (groupController.js)
    - [createUser], [getUserById]  (userController.js)

    together with the fragment of JavaScript they rely on: numbers with
    [NaN] and the infinities, truthiness, [parseFloat], [toFixed(2)],
    template-string keys, [String.prototype.split], and plain objects used
    as insertion-ordered dictionaries.  The tables of the schema are kept
    in an in-memory store, so that ledgers can be recorded through the
    creation handlers and read back by the balance handlers.

    Numbers.  A JavaScript number is modelled as an exact rational, [NaN] or
    a signed infinity.  The binary64 rounding of [+], [-], [*] and [/] is not
    modelled: every amount handled by the controllers is a decimal with two
    fraction digits (the columns are [numeric(10,2)]), and the worked ledgers
    below only involve small integers, on which binary64 arithmetic is
    exact.  Negative zero is identified with zero; none of the modelled code
    can tell them apart.

    Main results.  A settlement is added to the payer's debt by the group
    netting instead of deducted; keys are split at every ['-'], so the
    netting is exact only for identifiers without one; without settlements
    and with such identifiers the group scope and the user scope agree;
    the equal split rounds each share on its own; the exact split is
    accepted within the tolerance and refused beyond it, except that [NaN]
    passes the comparison.  A group created with a list of members has the
    listed users as members and no other, and it stays in the store when
    the insert of its members fails. *)

From Stdlib Require Import QArith Qround Qabs Qpower Lqa ZArith Lia Ascii String List Bool.
From Stdlib Require Import DecimalString DecimalN DecimalPos.
From stdpp Require Import base strings gmap list.
Import ListNotations.

Close Scope Q_scope.
Set Warnings "-register-all".
Open Scope string_scope.

(* ===================================================================== *)
(** ** JavaScript numbers *)
(* ===================================================================== *)

Module Num.

Inductive number : Type :=
| Fin (q : Q)      (* a finite value *)
| PosInf           (* Infinity *)
| NegInf           (* -Infinity *)
| NaN.

Definition zero : number := Fin 0%Q.
Definition of_Z (z : Z) : number := Fin (inject_Z z).
Definition of_nat (n : nat) : number := of_Z (Z.of_nat n).

Definition neg (x : number) : number :=
  match x with
  | Fin q => Fin (- q)%Q
  | PosInf => NegInf
  | NegInf => PosInf
  | NaN => NaN
  end.

(** [x + y] on numbers. *)
Definition add (x y : number) : number :=
  match x, y with
  | NaN, _ | _, NaN => NaN
  | Fin a, Fin b => Fin (a + b)%Q
  | PosInf, NegInf | NegInf, PosInf => NaN
  | PosInf, _ | _, PosInf => PosInf
  | NegInf, _ | _, NegInf => NegInf
  end.

(** [x - y]. *)
Definition sub (x y : number) : number := add x (neg y).

(** Sign of a rational: [Lt], [Eq] or [Gt] as it compares to zero. *)
Definition sgn (q : Q) : comparison := (q ?= 0)%Q.

(** [x * y]. *)
Definition mul (x y : number) : number :=
  match x, y with
  | NaN, _ | _, NaN => NaN
  | Fin a, Fin b => Fin (a * b)%Q
  | Fin a, PosInf | PosInf, Fin a =>
      match sgn a with Eq => NaN | Gt => PosInf | Lt => NegInf end
  | Fin a, NegInf | NegInf, Fin a =>
      match sgn a with Eq => NaN | Gt => NegInf | Lt => PosInf end
  | PosInf, PosInf | NegInf, NegInf => PosInf
  | PosInf, NegInf | NegInf, PosInf => NegInf
  end.

(** [x / y]; the divisors of the controllers are an array length and the
    constant 100, so a zero divisor is always [+0]. *)
Definition div (x y : number) : number :=
  match x, y with
  | NaN, _ | _, NaN => NaN
  | Fin a, Fin b =>
      match sgn b with
      | Eq => match sgn a with Eq => NaN | Gt => PosInf | Lt => NegInf end
      | _ => Fin (a / b)%Q
      end
  | Fin _, (PosInf | NegInf) => zero
  | PosInf, Fin b => match sgn b with Lt => NegInf | _ => PosInf end
  | NegInf, Fin b => match sgn b with Lt => PosInf | _ => NegInf end
  | (PosInf | NegInf), (PosInf | NegInf) => NaN
  end.

(** [Math.abs]. *)
Definition abs (x : number) : number :=
  match x with
  | Fin q => Fin (Qabs q)
  | PosInf | NegInf => PosInf
  | NaN => NaN
  end.

(** [x > y]: false as soon as one side is [NaN]. *)
Definition gt (x y : number) : bool :=
  match x, y with
  | NaN, _ | _, NaN => false
  | Fin a, Fin b => match (a ?= b)%Q with Gt => true | _ => false end
  | PosInf, PosInf => false
  | PosInf, _ => true
  | _, NegInf => match x with NegInf => false | _ => true end
  | _, _ => false
  end.

(** [x <= y]. *)
Definition le (x y : number) : bool :=
  match x, y with
  | NaN, _ | _, NaN => false
  | _, _ => negb (gt x y)
  end.

(** Truthiness of a number: [0] and [NaN] are falsy. *)
Definition truthy (x : number) : bool :=
  match x with
  | Fin q => negb (Qeq_bool q 0)
  | PosInf | NegInf => true
  | NaN => false
  end.

Definition is_nan (x : number) : bool :=
  match x with NaN => true | _ => false end.

Definition is_finite (x : number) : bool :=
  match x with Fin _ => true | _ => false end.

(** The literal [0.01] and [100]. *)
Definition cent : number := Fin (1 # 100)%Q.
Definition hundred : number := Fin 100%Q.

(** Equality of numbers up to the representation of the rational. *)
Definition equiv (x y : number) : Prop :=
  match x, y with
  | Fin a, Fin b => (a == b)%Q
  | PosInf, PosInf | NegInf, NegInf | NaN, NaN => True
  | _, _ => False
  end.

End Num.

Export Num.

(* ===================================================================== *)
(** ** JavaScript values, [parseFloat] and [toFixed(2)] *)
(* ===================================================================== *)

Module JS.

(** The JSON values a request body can carry, plus [undefined] for an
    absent property.  Objects list their own properties, keys distinct. *)
Inductive value : Type :=
| VUndefined
| VNull
| VBool (b : bool)
| VNum (n : number)
| VStr (s : string)
| VObj (fields : list (string * value))
| VArr (items : list value).

(** [!!v]. *)
Definition truthy (v : value) : bool :=
  match v with
  | VUndefined | VNull => false
  | VBool b => b
  | VNum n => Num.truthy n
  | VStr s => negb (String.eqb s "")
  | VObj _ | VArr _ => true
  end.

(** [!v]. *)
Definition falsy (v : value) : bool := negb (truthy v).

(** [v === 'lit']. *)
Definition is_str (v : value) (lit : string) : bool :=
  match v with
  | VStr s => String.eqb s lit
  | _ => false
  end.

Fixpoint assoc {A : Type} (k : string) (l : list (string * A)) : option A :=
  match l with
  | [] => None
  | (k', a) :: l' => if String.eqb k k' then Some a else assoc k l'
  end.

(** Property read [v.name] for the names the controllers use ([user_id],
    [amount], [percentage]): [None] is the TypeError raised on [undefined]
    and [null]; primitives and arrays have no such property. *)
Definition get (v : value) (name : string) : option value :=
  match v with
  | VUndefined | VNull => None
  | VObj fields => Some (default VUndefined (assoc name fields))
  | VBool _ | VNum _ | VStr _ | VArr _ => Some VUndefined
  end.

(** *** Reading decimal literals *)

Definition digit_of (c : ascii) : option N :=
  let n := N_of_ascii c in
  if ((48 <=? n) && (n <=? 57))%N then Some (n - 48)%N else None.

(** Longest run of decimal digits at the head of [s], accumulated into
    [acc]; also the number of digits read and the rest of the string. *)
Fixpoint read_digits (s : string) (acc : N) (cnt : nat) : N * nat * string :=
  match s with
  | String c s' =>
      match digit_of c with
      | Some d => read_digits s' (10 * acc + d)%N (S cnt)
      | None => (acc, cnt, s)
      end
  | EmptyString => (acc, cnt, s)
  end.

(** ASCII white space and line terminators (the non-ASCII ones are not
    modelled). *)
Definition is_space (c : ascii) : bool :=
  let n := N_of_ascii c in
  ((9 <=? n) && (n <=? 13) || (n =? 32))%N.

Fixpoint skip_space (s : string) : string :=
  match s with
  | String c s' => if is_space c then skip_space s' else s
  | EmptyString => s
  end.

Definition read_sign (s : string) : bool * string :=
  match s with
  | String "-" r => (true, r)
  | String "+" r => (false, r)
  | _ => (false, s)
  end.

(** Optional exponent part [e[+-]digits]; [0] when there is none. *)
Definition read_exponent (s : string) : Z :=
  match s with
  | String c r =>
      if (Ascii.eqb c "e" || Ascii.eqb c "E")%bool then
        let '(negative, r1) := read_sign r in
        let '(e, cnt, _) := read_digits r1 0%N 0%nat in
        match cnt with
        | O => 0%Z
        | S _ => if negative then (- Z.of_N e)%Z else Z.of_N e
        end
      else 0%Z
  | EmptyString => 0%Z
  end.

(** An unsigned decimal literal at the head of [s]: digits, an optional
    fraction, an optional exponent; at least one digit before the
    exponent. *)
Definition read_decimal (s : string) : option Q :=
  let '(ip, ci, r1) := read_digits s 0%N 0%nat in
  let '(m, cf, r2) :=
    match r1 with
    | String "." r => read_digits r ip 0%nat
    | _ => (ip, 0%nat, r1)
    end in
  match (ci + cf)%nat with
  | O => None
  | S _ =>
      Some (inject_Z (Z.of_N m) * Qpower 10 (read_exponent r2 - Z.of_nat cf))%Q
  end.

(** [parseFloat] on a string: leading white space is skipped and the
    longest prefix that is a decimal literal is read; [NaN] when there is
    none. *)
Definition parse_float (s : string) : number :=
  let '(negative, s1) := read_sign (skip_space s) in
  if String.prefix "Infinity" s1 then (if negative then NegInf else PosInf)
  else
    match read_decimal s1 with
    | None => NaN
    | Some q => Fin (if negative then (- q)%Q else q)
    end.

(** [parseFloat(v)]: the argument is first converted to a string.  A number
    prints and reads back as itself; an array prints as its elements joined
    by commas, so that only its first element can be read. *)
Fixpoint parseFloat (v : value) : number :=
  match v with
  | VNum n => n
  | VStr s => parse_float s
  | VArr (x :: _) => parseFloat x
  | VArr [] | VUndefined | VNull | VBool _ | VObj _ => NaN
  end.

(** *** Printing with two fraction digits *)

(** The integer [n] for which [n / 100 - q] is closest to zero, the larger
    one on a tie; [q] is non-negative here. *)
Definition round_cents (q : Q) : Z := Qfloor (q * 100 + (1 # 2))%Q.

Definition string_of_N (n : N) : string :=
  NilEmpty.string_of_uint (N.to_uint n).

Definition digit_char (d : N) : ascii := ascii_of_N (48 + d).

(** Fixed notation of [n / 100] for a natural [n]. *)
Definition fixed2 (n : N) : string :=
  string_of_N (n / 100)
  +:+ "."
  +:+ String (digit_char ((n / 10) mod 10)) (String (digit_char (n mod 10)) "").

(** [x.toFixed(2)].  Magnitudes of [1e21] and above, which JavaScript
    prints in exponent notation, lie far beyond the [numeric(10,2)] columns
    and are printed in fixed notation too. *)
Definition toFixed2 (x : number) : string :=
  match x with
  | NaN => "NaN"
  | PosInf => "Infinity"
  | NegInf => "-Infinity"
  | Fin q =>
      let body := fixed2 (Z.to_N (round_cents (Qabs q))) in
      if Qlt_le_dec q 0 then "-" +:+ body else body
  end.

End JS.

Export JS.

(* ===================================================================== *)
(** ** The ledger store *)
(* ===================================================================== *)

(** The tables of the schema, as lists in insertion order.  Identifier
    columns are kept as text: the [uuid] column type and the foreign keys
    are not modelled, and amounts are stored as given (the rounding and
    the range of [numeric(10,2)] are not modelled).  The [NOT NULL] and
    [CHECK] constraints of the schema are. *)
Module Store.

Record user : Type := mk_user {
  user_id_of : string;
  user_name : string;
  user_email : string }.

Record group_member : Type := mk_member {
  member_group_id : string;
  member_user_id : string }.

Record expense : Type := mk_expense {
  expense_id : nat;
  expense_group_id : string;
  expense_description : string;
  expense_amount : number;
  expense_paid_by : string;
  expense_split_type : string }.

Record expense_split : Type := mk_split {
  split_expense_id : nat;
  split_user_id : string;
  split_amount : number;
  split_percentage : option number }.

Record settlement : Type := mk_settlement {
  settlement_group_id : string;
  settlement_paid_by : string;
  settlement_paid_to : string;
  settlement_amount : number }.

Record db : Type := mk_db {
  users : list user;
  group_members : list group_member;
  expenses : list expense;
  expense_splits : list expense_split;
  settlements : list settlement }.

Definition empty : db := mk_db [] [] [] [] [].

(** A number as it reaches a [numeric] column: [NaN] and the infinities
    are serialised as [null]. *)
Definition to_numeric (n : number) : option Q :=
  match n with
  | Fin q => Some q
  | _ => None
  end.

Definition to_text (v : value) : option string :=
  match v with
  | VStr s => Some s
  | _ => None
  end.

Definition positive (q : Q) : bool :=
  match (q ?= 0)%Q with Gt => true | _ => false end.

Definition valid_split_type (k : string) : bool :=
  (String.eqb k "equal" || String.eqb k "exact" || String.eqb k "percentage")%bool.

(** What the controller sends to [expenses]. *)
Record expense_row : Type := mk_expense_row {
  row_group_id : value;
  row_description : value;
  row_amount : number;
  row_paid_by : value;
  row_split_type : value }.

(** [insert] into [expenses] followed by [select().single()]: the new row,
    or [None] when a constraint rejects it. *)
Definition insert_expense (d : db) (r : expense_row) : option (expense * db) :=
  g ← to_text (row_group_id r);
  descr ← to_text (row_description r);
  a ← to_numeric (row_amount r);
  p ← to_text (row_paid_by r);
  k ← to_text (row_split_type r);
  if (positive a && valid_split_type k)%bool then
    let e := mk_expense (length (expenses d)) g descr (Fin a) p k in
    Some (e, mk_db (users d) (group_members d) (expenses d ++ [e])
                   (expense_splits d) (settlements d))
  else None.

(** What the controller sends to [expense_splits]. *)
Record split_row : Type := mk_split_row {
  srow_expense_id : nat;
  srow_user_id : value;
  srow_amount : number;
  srow_percentage : value }.

Definition in_percent_range (q : Q) : bool :=
  (Qle_bool 0 q && Qle_bool q 100)%bool.

Definition check_split (r : split_row) : option expense_split :=
  u ← to_text (srow_user_id r);
  a ← to_numeric (srow_amount r);
  match srow_percentage r with
  | VNull => Some (mk_split (srow_expense_id r) u (Fin a) None)
  | VNum (Fin p) =>
      if in_percent_range p
      then Some (mk_split (srow_expense_id r) u (Fin a) (Some (Fin p)))
      else None
  | VNum _ => Some (mk_split (srow_expense_id r) u (Fin a) None)
  | _ => None
  end.

(** One [insert] of all the rows: all of them or none. *)
Definition insert_splits (d : db) (rs : list split_row) : option db :=
  rows ← mapM check_split rs;
  Some (mk_db (users d) (group_members d) (expenses d)
              (expense_splits d ++ rows) (settlements d)).

Record settlement_row : Type := mk_settlement_row {
  trow_group_id : value;
  trow_paid_by : value;
  trow_paid_to : value;
  trow_amount : number }.

Definition insert_settlement (d : db) (r : settlement_row) : option (settlement * db) :=
  g ← to_text (trow_group_id r);
  p ← to_text (trow_paid_by r);
  t ← to_text (trow_paid_to r);
  a ← to_numeric (trow_amount r);
  if (positive a && negb (String.eqb p t))%bool then
    let s := mk_settlement g p t (Fin a) in
    Some (s, mk_db (users d) (group_members d) (expenses d)
                   (expense_splits d) (settlements d ++ [s]))
  else None.

End Store.

(** Replies of the handlers: [res.status(s).json(payload)], or
    [res.status(s).json({ error })]. *)
Inductive response (A : Type) : Type :=
| Reply (status : nat) (payload : A)
| Failure (status : nat) (error : string).
Arguments Reply {A} status payload.
Arguments Failure {A} status error.

Definition internal_error {A : Type} : response A :=
  Failure 500 "Internal server error".

(* ===================================================================== *)
(** ** expenseController.js: [createExpense] *)
(* ===================================================================== *)

Module Expense.

(** [req.body], destructured; an absent property is [VUndefined]. *)
Record body : Type := mk_body {
  group_id : value;
  description : value;
  amount : value;
  paid_by : value;
  split_type : value;
  splits : value }.

(** An element of [calculatedSplits]. *)
Record calculated : Type := mk_calculated {
  user_id : value;
  calc_amount : string;       (* [amount]: the result of [toFixed(2)] *)
  percentage : value }.

(** Outcome of the split computation of lines 19-52: the list, an early
    [400] reply, or an exception (caught by the handler: [500]). *)
Inductive computed : Type :=
| Calculated (cs : list calculated)
| Rejected (error : string)
| Thrown.

(** [splits.reduce((sum, split) => sum + parseFloat(split.<field>), 0)];
    [None] when reading the property throws. *)
Fixpoint reduce_sum (field : string) (items : list value) (sum : number) : option number :=
  match items with
  | [] => Some sum
  | split :: rest =>
      v ← get split field;
      reduce_sum field rest (add sum (parseFloat v))
  end.

Definition equal_split (total : value) (items : list value) : list calculated :=
  let splitAmount := div (parseFloat total) (of_nat (length items)) in
  map (fun user_id => mk_calculated user_id (toFixed2 splitAmount) VNull) items.

Definition exact_share (split : value) : option calculated :=
  u ← get split "user_id";
  a ← get split "amount";
  Some (mk_calculated u (toFixed2 (parseFloat a)) VNull).

Definition percentage_share (total : value) (split : value) : option calculated :=
  u ← get split "user_id";
  p ← get split "percentage";
  Some (mk_calculated u
          (toFixed2 (div (mul (parseFloat total) (parseFloat p)) hundred))
          (VNum (parseFloat p))).

Definition of_option (o : option (list calculated)) : computed :=
  match o with
  | Some cs => Calculated cs
  | None => Thrown
  end.

Definition calculate (b : body) : computed :=
  if is_str (split_type b) "equal" then
    match splits b with
    | VArr items => Calculated (equal_split (amount b) items)
    | _ => Thrown                      (* splits.map is not a function *)
    end
  else if is_str (split_type b) "exact" then
    match splits b with
    | VArr items =>
        match reduce_sum "amount" items zero with
        | None => Thrown
        | Some totalSplit =>
            if gt (abs (sub totalSplit (parseFloat (amount b)))) cent
            then Rejected "Sum of exact splits must equal total amount"
            else of_option (mapM exact_share items)
        end
    | _ => Thrown                      (* splits.reduce is not a function *)
    end
  else if is_str (split_type b) "percentage" then
    match splits b with
    | VArr items =>
        match reduce_sum "percentage" items zero with
        | None => Thrown
        | Some totalPercentage =>
            if gt (abs (sub totalPercentage hundred)) cent
            then Rejected "Sum of percentages must equal 100"
            else of_option (mapM (percentage_share (amount b)) items)
        end
    | _ => Thrown
    end
  else Calculated [].

Definition missing_field (b : body) : bool :=
  (JS.falsy (group_id b) || JS.falsy (description b) || JS.falsy (amount b)
   || JS.falsy (paid_by b) || JS.falsy (split_type b) || JS.falsy (splits b))%bool.

Definition known_split_type (v : value) : bool :=
  (is_str v "equal" || is_str v "exact" || is_str v "percentage")%bool.

Definition expense_row_of (b : body) : Store.expense_row :=
  Store.mk_expense_row (group_id b) (description b) (parseFloat (amount b))
                       (paid_by b) (split_type b).

Definition split_row_of (e : Store.expense) (c : calculated) : Store.split_row :=
  Store.mk_split_row (Store.expense_id e) (user_id c)
                     (parse_float (calc_amount c)) (percentage c).

(** The handler: the reply and the store it leaves.  The two inserts are
    separate calls: when the second fails the expense row stays. *)
Definition createExpense (d : Store.db) (b : body) : response Store.expense * Store.db :=
  if missing_field b then
    (Failure 400 "group_id, description, amount, paid_by, split_type, and splits are required", d)
  else if negb (known_split_type (split_type b)) then
    (Failure 400 "split_type must be equal, exact, or percentage", d)
  else
    match calculate b with
    | Rejected error => (Failure 400 error, d)
    | Thrown => (internal_error, d)
    | Calculated calculatedSplits =>
        match Store.insert_expense d (expense_row_of b) with
        | None => (internal_error, d)
        | Some (expense, d1) =>
            match Store.insert_splits d1 (map (split_row_of expense) calculatedSplits) with
            | None => (internal_error, d1)
            | Some d2 => (Reply 201 expense, d2)
            end
        end
    end.

End Expense.

(* ===================================================================== *)
(** ** Binary64 arithmetic and [createExpense] over it *)
(* ===================================================================== *)

(** The numbers of module [Num] are exact.  This module rounds them as
    JavaScript does: every finite result of a literal, of [parseFloat] and
    of [+], [-], [*], [/] is the binary64 value nearest to the exact one,
    ties to the even significand.  [createExpense] is embedded a second
    time over this arithmetic, for the statements that depend on the
    rounding. *)
Module Double.

Definition pow2 (e : Z) : Q := Qpower 2 e.

(** [floor (log2 q)] for a positive [q]. *)
Definition ilog2 (q : Q) : Z :=
  let e := (Z.log2 (Qnum q) - Z.log2 (Zpos (Qden q)))%Z in
  if Qle_bool (pow2 e) q then e else (e - 1)%Z.

(** The integer nearest to [q], the even one on a tie. *)
Definition nearest_even (q : Q) : Z :=
  let f := Qfloor q in
  match (q - inject_Z f ?= 1 # 2)%Q with
  | Lt => f
  | Gt => (f + 1)%Z
  | Eq => if Z.even f then f else (f + 1)%Z
  end.

(** The spacing of the binary64 values around a positive [q]: 52 fraction
    bits below the leading one, and the fixed spacing [2^-1074] of the
    subnormal range. *)
Definition quantum (q : Q) : Q := pow2 (Z.max (ilog2 q) (-1022) - 52).

Definition round_pos (q : Q) : number :=
  let r := (inject_Z (nearest_even (q / quantum q)) * quantum q)%Q in
  if Qle_bool (pow2 1024) r then PosInf else Fin (Qred r).

(** The binary64 value of the real number [q]. *)
Definition round (q : Q) : number :=
  match (q ?= 0)%Q with
  | Eq => zero
  | Gt => round_pos q
  | Lt => neg (round_pos (- q))
  end.

Definition rounded (x : number) : number :=
  match x with
  | Fin q => round q
  | _ => x
  end.

Definition add (x y : number) : number := rounded (Num.add x y).
Definition sub (x y : number) : number := rounded (Num.sub x y).
Definition mul (x y : number) : number := rounded (Num.mul x y).
Definition div (x y : number) : number := rounded (Num.div x y).

(** The literal [0.01]. *)
Definition cent : number := round (1 # 100).

(** [JSON.parse] of the request body: every number literal becomes a
    binary64 value. *)
Fixpoint json (v : value) : value :=
  match v with
  | VNum n => VNum (rounded n)
  | VObj fields => VObj (map (fun '(k, x) => (k, json x)) fields)
  | VArr items => VArr (map json items)
  | VUndefined | VNull | VBool _ | VStr _ => v
  end.

(** [parseFloat] on a string: the binary64 value nearest to the decimal
    literal read. *)
Definition parse_float (s : string) : number := rounded (JS.parse_float s).

(** [parseFloat] on a value of a parsed body.  A number prints and reads
    back as itself. *)
Fixpoint parseFloat (v : value) : number :=
  match v with
  | VNum n => n
  | VStr s => parse_float s
  | VArr (x :: _) => parseFloat x
  | VArr [] | VUndefined | VNull | VBool _ | VObj _ => NaN
  end.

Import Expense.

Fixpoint reduce_sum (field : string) (items : list value) (sum : number) : option number :=
  match items with
  | [] => Some sum
  | split :: rest =>
      v ← get split field;
      reduce_sum field rest (add sum (parseFloat v))
  end.

Definition equal_split (total : value) (items : list value) : list calculated :=
  let splitAmount := div (parseFloat total) (of_nat (length items)) in
  map (fun user_id => mk_calculated user_id (toFixed2 splitAmount) VNull) items.

Definition exact_share (split : value) : option calculated :=
  u ← get split "user_id";
  a ← get split "amount";
  Some (mk_calculated u (toFixed2 (parseFloat a)) VNull).

Definition percentage_share (total : value) (split : value) : option calculated :=
  u ← get split "user_id";
  p ← get split "percentage";
  Some (mk_calculated u
          (toFixed2 (div (mul (parseFloat total) (parseFloat p)) hundred))
          (VNum (parseFloat p))).

(** Lines 19-52 on a parsed body. *)
Definition calculate (b : body) : computed :=
  if is_str (split_type b) "equal" then
    match splits b with
    | VArr items => Calculated (equal_split (amount b) items)
    | _ => Thrown
    end
  else if is_str (split_type b) "exact" then
    match splits b with
    | VArr items =>
        match reduce_sum "amount" items zero with
        | None => Thrown
        | Some totalSplit =>
            if gt (abs (sub totalSplit (parseFloat (amount b)))) cent
            then Rejected "Sum of exact splits must equal total amount"
            else of_option (mapM exact_share items)
        end
    | _ => Thrown
    end
  else if is_str (split_type b) "percentage" then
    match splits b with
    | VArr items =>
        match reduce_sum "percentage" items zero with
        | None => Thrown
        | Some totalPercentage =>
            if gt (abs (sub totalPercentage hundred)) cent
            then Rejected "Sum of percentages must equal 100"
            else of_option (mapM (percentage_share (amount b)) items)
        end
    | _ => Thrown
    end
  else Calculated [].

Definition expense_row_of (b : body) : Store.expense_row :=
  Store.mk_expense_row (group_id b) (description b) (parseFloat (amount b))
                       (paid_by b) (split_type b).

Definition split_row_of (e : Store.expense) (c : calculated) : Store.split_row :=
  Store.mk_split_row (Store.expense_id e) (user_id c)
                     (parse_float (calc_amount c)) (percentage c).

(** [req.body] as [express.json()] hands it to the handler. *)
Definition parsed (b : body) : body :=
  mk_body (json (group_id b)) (json (description b)) (json (amount b))
          (json (paid_by b)) (json (split_type b)) (json (splits b)).

(** Lines 54-81: the two inserts, once the shares are computed.  They are
    separate calls: when the second fails the expense row stays. *)
Definition record (d : Store.db) (b : body) (calculatedSplits : list calculated)
  : response Store.expense * Store.db :=
  match Store.insert_expense d (expense_row_of b) with
  | None => (internal_error, d)
  | Some (expense, d1) =>
      match Store.insert_splits d1 (map (split_row_of expense) calculatedSplits) with
      | None => (internal_error, d1)
      | Some d2 => (Reply 201 expense, d2)
      end
  end.

(** The handler on the text of a request body. *)
Definition createExpense (d : Store.db) (request : body)
  : response Store.expense * Store.db :=
  let b := parsed request in
  if missing_field b then
    (Failure 400 "group_id, description, amount, paid_by, split_type, and splits are required", d)
  else if negb (known_split_type (split_type b)) then
    (Failure 400 "split_type must be equal, exact, or percentage", d)
  else
    match calculate b with
    | Rejected error => (Failure 400 error, d)
    | Thrown => (internal_error, d)
    | Calculated calculatedSplits => record d b calculatedSplits
    end.

End Double.

(* ===================================================================== *)
(** ** settlementController.js: [createSettlement] *)
(* ===================================================================== *)

Module Settlement.

Record body : Type := mk_body {
  group_id : value;
  paid_by : value;
  paid_to : value;
  amount : value }.

Definition number_eq (x y : number) : bool :=
  match x, y with
  | Fin a, Fin b => Qeq_bool a b
  | PosInf, PosInf | NegInf, NegInf => true
  | _, _ => false
  end.

(** [v === w]; two objects parsed from a request body are never the same
    object. *)
Definition strict_eq (v w : value) : bool :=
  match v, w with
  | VUndefined, VUndefined | VNull, VNull => true
  | VBool a, VBool b => Bool.eqb a b
  | VNum a, VNum b => number_eq a b
  | VStr a, VStr b => String.eqb a b
  | _, _ => false
  end.

Definition missing_field (b : body) : bool :=
  (JS.falsy (group_id b) || JS.falsy (paid_by b) || JS.falsy (paid_to b)
   || JS.falsy (amount b))%bool.

Definition settlement_row_of (b : body) : Store.settlement_row :=
  Store.mk_settlement_row (group_id b) (paid_by b) (paid_to b)
                          (parseFloat (amount b)).

Definition createSettlement (d : Store.db) (b : body)
  : response Store.settlement * Store.db :=
  if missing_field b then
    (Failure 400 "group_id, paid_by, paid_to, and amount are required", d)
  else if strict_eq (paid_by b) (paid_to b) then
    (Failure 400 "paid_by and paid_to must be different users", d)
  else if le (parseFloat (amount b)) zero then
    (Failure 400 "amount must be greater than 0", d)
  else
    match Store.insert_settlement d (settlement_row_of b) with
    | None => (internal_error, d)
    | Some (data, d1) => (Reply 201 data, d1)
    end.

End Settlement.

(* ===================================================================== *)
(** ** balanceController.js *)
(* ===================================================================== *)

Module Balance.

(** *** Plain objects as dictionaries

    [balances] is a plain object written with [balances[key] = ...] and
    read back with [for (key in balances)]: properties come out in the
    order of their first assignment.  (Keys that are canonical array
    indices would come first; a key built with ['-'] never is one, and
    user identifiers are UUIDs.  The inherited properties of
    [Object.prototype] are not modelled either: none has such a name.) *)
Definition dict : Type := list (string * number).

Definition lookup (o : dict) (key : string) : option number := assoc key o.

Fixpoint assign (o : dict) (key : string) (v : number) : dict :=
  match o with
  | [] => [(key, v)]
  | (k, w) :: o' =>
      if String.eqb key k then (k, v) :: o' else (k, w) :: assign o' key v
  end.

Definition keys (o : dict) : list string := map fst o.

(** [x || 0] for a looked-up entry [x]: absent, [0] and [NaN] give [0]. *)
Definition or0 (x : option number) : number :=
  match x with
  | Some n => if Num.truthy n then n else zero
  | None => zero
  end.

(** *** Rows as the queries return them *)

(** [expense_splits (user_id, amount)] nested in an expense. *)
Record split : Type := mk_split {
  user_id : string;
  split_amount : number }.

(** [id, amount, paid_by, expense_splits (...)]. *)
Record expense : Type := mk_expense {
  id : nat;
  expense_amount : number;
  paid_by : string;
  expense_splits : list split }.

(** *** Keys *)

(** The template string [`${a}-${b}`]. *)
Definition make_key (a b : string) : string := a +:+ "-" +:+ b.

(** [s.split('-')]. *)
Fixpoint split_dash (s : string) : list string :=
  match s with
  | EmptyString => [""]
  | String c s' =>
      if Ascii.eqb c "-" then "" :: split_dash s'
      else match split_dash s' with
           | h :: t => String c h :: t
           | [] => [String c ""]
           end
  end.

(** [const [fromUser, toUser] = key.split('-')].  A missing second
    fragment is [undefined], printed as such by the template string; it
    cannot occur for a key of [balances], which always holds a ['-']. *)
Definition endpoints (key : string) : string * string :=
  let parts := split_dash key in
  (nth 0 parts "undefined", nth 1 parts "undefined").

(** *** Group scope: lines 37-75 *)

Definition add_split (payer : string) (balances : dict) (s : split) : dict :=
  if negb (String.eqb (user_id s) payer) then
    let key := make_key (user_id s) payer in
    assign balances key (add (or0 (lookup balances key)) (split_amount s))
  else balances.

Definition add_expense (balances : dict) (e : expense) : dict :=
  fold_left (add_split (paid_by e)) (expense_splits e) balances.

Definition add_settlement (balances : dict) (s : Store.settlement) : dict :=
  let key := make_key (Store.settlement_paid_to s) (Store.settlement_paid_by s) in
  assign balances key (sub (or0 (lookup balances key)) (Store.settlement_amount s)).

Definition accumulate (expenses : list expense) (settlements : list Store.settlement) : dict :=
  fold_left add_settlement settlements (fold_left add_expense expenses []).

(** An element of [simplifiedBalances]. *)
Record edge : Type := mk_edge {
  from_user : string;
  to_user : string;
  amount : string }.

(** One iteration of [for (const key in balances)]. *)
Definition visit (balances : dict) (st : list edge * gset string) (key : string)
  : list edge * gset string :=
  let '(simplifiedBalances, processed) := st in
  let '(fromUser, toUser) := endpoints key in
  let reverseKey := make_key toUser fromUser in
  if (bool_decide (key ∈ processed) || bool_decide (reverseKey ∈ processed))%bool
  then st
  else
    let net := sub (or0 (lookup balances key)) (or0 (lookup balances reverseKey)) in
    let pushed :=
      if gt (abs net) cent then
        (simplifiedBalances ++
          [mk_edge (if gt net zero then fromUser else toUser)
                   (if gt net zero then toUser else fromUser)
                   (toFixed2 (abs net))])%list
      else simplifiedBalances in
    (pushed, {[key]} ∪ ({[reverseKey]} ∪ processed)).

Definition simplify (balances : dict) : list edge :=
  fst (fold_left (visit balances) (keys balances) ([], ∅)).

(** [simplifiedBalances] of [getGroupBalances], from the rows of the two
    queries. *)
Definition groupBalances (expenses : list expense) (settlements : list Store.settlement)
  : list edge :=
  simplify (accumulate expenses settlements).

(** *** User scope: lines 158-217 *)

Definition add_split_for (userId payer : string) (balances : dict) (s : split) : dict :=
  if (String.eqb (user_id s) userId && negb (String.eqb payer userId))%bool then
    assign balances payer (add (or0 (lookup balances payer)) (split_amount s))
  else if (String.eqb payer userId && negb (String.eqb (user_id s) userId))%bool then
    assign balances (user_id s)
           (sub (or0 (lookup balances (user_id s))) (split_amount s))
  else balances.

Definition add_expense_for (userId : string) (balances : dict) (e : expense) : dict :=
  fold_left (add_split_for userId (paid_by e)) (expense_splits e) balances.

Definition add_settlement_for (userId : string) (balances : dict) (s : Store.settlement) : dict :=
  if String.eqb (Store.settlement_paid_by s) userId then
    assign balances (Store.settlement_paid_to s)
           (sub (or0 (lookup balances (Store.settlement_paid_to s)))
                (Store.settlement_amount s))
  else if String.eqb (Store.settlement_paid_to s) userId then
    assign balances (Store.settlement_paid_by s)
           (sub (or0 (lookup balances (Store.settlement_paid_by s)))
                (Store.settlement_amount s))
  else balances.

Definition accumulate_for (userId : string) (expenses : list expense)
    (settlements : list Store.settlement) : dict :=
  fold_left (add_settlement_for userId) settlements
            (fold_left (add_expense_for userId) expenses []).

(** Entries of [owes] and [owed] before the user records are attached:
    the counterparty's identifier and the printed amount. *)
Definition entry : Type := (string * string)%type.

Definition classify (st : list entry * list entry) (kv : string * number)
  : list entry * list entry :=
  let '(owes, owed) := st in
  let '(otherUserId, v) := kv in
  if gt (abs v) cent then
    if gt v zero then ((owes ++ [(otherUserId, toFixed2 v)])%list, owed)
    else (owes, (owed ++ [(otherUserId, toFixed2 (abs v))])%list)
  else st.

Definition partition_balances (balances : dict) : list entry * list entry :=
  fold_left classify balances ([], []).

(** [list.reduce((s, i) => s + Number(i.amount), 0).toFixed(2)]; the
    amounts are strings printed by [toFixed], which [Number] reads back as
    [parseFloat] does. *)
Definition total (l : list entry) : string :=
  toFixed2 (fold_left (fun s i => add s (parse_float (snd i))) l zero).

Definition userBalances (userId : string) (expenses : list expense)
    (settlements : list Store.settlement) : list entry * list entry :=
  partition_balances (accumulate_for userId expenses settlements).

(** *** The handlers *)

Section Handlers.

(** [validate] of the [uuid] package. *)
Variable isUUID : string -> bool.

Definition splits_of (d : Store.db) (e : Store.expense) : list split :=
  map (fun s => mk_split (Store.split_user_id s) (Store.split_amount s))
      (List.filter (fun s => Nat.eqb (Store.split_expense_id s) (Store.expense_id e))
              (Store.expense_splits d)).

Definition view (d : Store.db) (e : Store.expense) : expense :=
  mk_expense (Store.expense_id e) (Store.expense_amount e)
             (Store.expense_paid_by e) (splits_of d e).

(** [from('expenses').select(...).in('group_id', groupIds)]; [eq] is the
    case of one group. *)
Definition expenses_in (d : Store.db) (groupIds : list string) : list expense :=
  map (view d)
      (List.filter (fun e => existsb (String.eqb (Store.expense_group_id e)) groupIds)
              (Store.expenses d)).

Definition settlements_in (d : Store.db) (groupIds : list string) : list Store.settlement :=
  List.filter (fun s => existsb (String.eqb (Store.settlement_group_id s)) groupIds)
         (Store.settlements d).

(** [userMap[id]] after the batch lookup: the record of the user, or
    [undefined]. *)
Definition find_user (d : Store.db) (uid : string) : option Store.user :=
  List.find (fun u => String.eqb (Store.user_id_of u) uid) (Store.users d).

Record balance : Type := mk_balance {
  balance_from : option Store.user;
  balance_to : option Store.user;
  balance_amount : string }.

Definition getGroupBalances (d : Store.db) (groupId : string) : response (list balance) :=
  if negb (isUUID groupId) then Failure 400 "Invalid groupId"
  else
    let simplifiedBalances :=
      groupBalances (expenses_in d [groupId]) (settlements_in d [groupId]) in
    Reply 200
      (map (fun b => mk_balance (find_user d (from_user b)) (find_user d (to_user b))
                                (amount b))
           simplifiedBalances).

Record user_balances : Type := mk_user_balances {
  owes : list (option Store.user * string);
  owed : list (option Store.user * string);
  total_owes : string;
  total_owed : string }.

Definition getUserBalances (d : Store.db) (userId : string) : response user_balances :=
  if negb (isUUID userId) then Failure 400 "Invalid userId"
  else
    let groupIds :=
      map Store.member_group_id
          (List.filter (fun m => String.eqb (Store.member_user_id m) userId)
                  (Store.group_members d)) in
    match groupIds with
    | [] => Reply 200 (mk_user_balances [] [] "0.00" "0.00")
    | _ =>
        let '(owes, owed) :=
          userBalances userId (expenses_in d groupIds) (settlements_in d groupIds) in
        let attach := map (fun i : entry => (find_user d (fst i), snd i)) in
        Reply 200 (mk_user_balances (attach owes) (attach owed) (total owes) (total owed))
    end.

End Handlers.

End Balance.

(* ===================================================================== *)
(** ** Worked ledgers *)
(* ===================================================================== *)

(** Ledgers recorded through the two creation handlers and read back by
    the queries of the balance handlers. *)
Module Walkthrough.

Import Balance.

Definition equal_expense (group payer : string) (total : Z) (among : list string)
  : Expense.body :=
  Expense.mk_body (VStr group) (VStr "shared") (VNum (of_Z total)) (VStr payer)
                  (VStr "equal") (VArr (map VStr among)).

Definition payment (group payer payee : string) (total : Z) : Settlement.body :=
  Settlement.mk_body (VStr group) (VStr payer) (VStr payee) (VNum (of_Z total)).

Definition record_expense (d : Store.db) (b : Expense.body) : Store.db :=
  snd (Expense.createExpense d b).

Definition record_settlement (d : Store.db) (b : Settlement.body) : Store.db :=
  snd (Settlement.createSettlement d b).

Definition group_edges (d : Store.db) (group : string) : list edge :=
  groupBalances (expenses_in d [group]) (settlements_in d [group]).

Definition user_entries (d : Store.db) (group userId : string)
  : list entry * list entry :=
  userBalances userId (expenses_in d [group]) (settlements_in d [group]).

(** A pays 90, split equally among A, B, C; then B pays A 30. *)
Definition dinner : Store.db :=
  record_expense Store.empty (equal_expense "G" "A" 90 ["A"; "B"; "C"]).
Definition dinner_settled : Store.db :=
  record_settlement dinner (payment "G" "B" "A" 30).

(** A pays 300, B pays 90, C pays 60, each split equally among A, B, C;
    then C pays A 50. *)
Definition trip : Store.db :=
  record_expense
    (record_expense
       (record_expense Store.empty (equal_expense "G" "A" 300 ["A"; "B"; "C"]))
       (equal_expense "G" "B" 90 ["A"; "B"; "C"]))
    (equal_expense "G" "C" 60 ["A"; "B"; "C"]).
Definition trip_settled : Store.db :=
  record_settlement trip (payment "G" "C" "A" 50).

(** Two members who owe each other: the second pays 100 and the first pays
    60, each split equally between the two.  Once with the identifiers the
    database generates, once with identifiers free of ['-']. *)
Definition group_uuid : string := "0f0e0d0c-0b0a-4908-8706-050403020100".
Definition alice_uuid : string := "11111111-2222-4333-8444-555555555555".
Definition bob_uuid : string := "aaaaaaaa-bbbb-4ccc-8ddd-eeeeeeeeeeee".
Definition carol_uuid : string := "cccccccc-dddd-4eee-8fff-000000000000".

Definition mutual (group first second : string) : Store.db :=
  record_expense
    (record_expense Store.empty (equal_expense group second 100 [first; second]))
    (equal_expense group first 60 [first; second]).

(** The ledger of [dinner_settled] with such identifiers. *)
Definition dinner_uuid : Store.db :=
  record_settlement
    (record_expense Store.empty
       (equal_expense group_uuid alice_uuid 90 [alice_uuid; bob_uuid; carol_uuid]))
    (payment group_uuid bob_uuid alice_uuid 30).

(** Identifiers that hold a ['-'] and whose fragments mirror each other. *)
Definition crossed : Store.db :=
  record_expense
    (record_expense Store.empty (equal_expense "G" "c" 20 ["a-b"; "c"]))
    (equal_expense "G" "d" 20 ["b-a"; "d"]).

End Walkthrough.

(* ===================================================================== *)
(** ** Vocabulary of the statements *)
(* ===================================================================== *)

Import Balance Walkthrough.

(** [s] holds the separator of the keys. *)
Fixpoint has_dash (s : string) : bool :=
  match s with
  | EmptyString => false
  | String c s' => (Ascii.eqb c "-" || has_dash s')%bool
  end.

(** The signed balance of the queried user toward [other]: positive when
    the user owes [other]. *)
Definition running (balances : dict) (other : string) : number :=
  or0 (lookup balances other).

(** The other side of a settlement that touches [userId]. *)
Definition counterparty (userId : string) (s : Store.settlement) : option string :=
  if String.eqb (Store.settlement_paid_by s) userId then Some (Store.settlement_paid_to s)
  else if String.eqb (Store.settlement_paid_to s) userId then Some (Store.settlement_paid_by s)
  else None.

(** C4 as stated: applying [s] does not increase the magnitude of the
    balance toward the counterparty. *)
Definition magnitude_not_increased (userId : string) (balances : dict)
    (s : Store.settlement) : Prop :=
  forall other, counterparty userId s = Some other ->
    le (abs (running (add_settlement_for userId balances s) other))
       (abs (running balances other)) = true.

(** A reply that reports a validation failure: status 400. *)
Definition is_validation_failure {A : Type} (r : response A) : bool :=
  match r with
  | Failure 400 _ => true
  | _ => false
  end.

(** Reading [item.field] gives something that [parseFloat] turns into
    [NaN]. *)
Definition reads_nan (field : string) (item : value) : Prop :=
  exists v, get item field = Some v /\ parseFloat v = NaN.

(** [item] is neither [null] nor [undefined]: its properties can be read. *)
Definition readable (item : value) : Prop :=
  match item with
  | VUndefined | VNull => False
  | _ => True
  end.

(** Value and number of digits of a decimal numeral read from the left,
    as [read_digits] accumulates them. *)
Fixpoint uint_value (d : Decimal.uint) (acc : N) : N :=
  match d with
  | Decimal.Nil => acc
  | Decimal.D0 l => uint_value l (10 * acc + 0)%N
  | Decimal.D1 l => uint_value l (10 * acc + 1)%N
  | Decimal.D2 l => uint_value l (10 * acc + 2)%N
  | Decimal.D3 l => uint_value l (10 * acc + 3)%N
  | Decimal.D4 l => uint_value l (10 * acc + 4)%N
  | Decimal.D5 l => uint_value l (10 * acc + 5)%N
  | Decimal.D6 l => uint_value l (10 * acc + 6)%N
  | Decimal.D7 l => uint_value l (10 * acc + 7)%N
  | Decimal.D8 l => uint_value l (10 * acc + 8)%N
  | Decimal.D9 l => uint_value l (10 * acc + 9)%N
  end.

(** The rational [n / 100] as [parseFloat] builds it from a mantissa [n]
    and two fraction digits. *)
Definition cents (n : N) : Q := (inject_Z (Z.of_N n) * Qpower 10 (0 - 2))%Q.






(** Identifiers free of the separator, and ledgers made of them. *)
Definition dash_free (s : string) : Prop := has_dash s = false.

Definition dash_free_expense (e : expense) : Prop :=
  dash_free (paid_by e) /\ Forall (fun s => dash_free (user_id s)) (expense_splits e).

Definition dash_free_settlement (s : Store.settlement) : Prop :=
  dash_free (Store.settlement_paid_by s) /\ dash_free (Store.settlement_paid_to s).

(** A key built from two such identifiers. *)
Definition plain_key (key : string) : Prop :=
  exists a b, key = make_key a b /\ dash_free a /\ dash_free b.

Definition plain_keys (o : dict) : Prop := forall k, In k (keys o) -> plain_key k.

(** The two endpoints of an edge, in order. *)
Definition ends (e : edge) : string * string := (from_user e, to_user e).

(** State of the loop of [simplify]: every edge pushed so far has its key
    and its reverse key in [processed], joins two different members, and
    no pair of members appears twice, in either order. *)
Definition netted (st : list edge * gset string) : Prop :=
  let '(out, processed) := st in
  (forall e, In e out ->
     make_key (from_user e) (to_user e) ∈ processed
     /\ make_key (to_user e) (from_user e) ∈ processed
     /\ from_user e <> to_user e)
  /\ NoDup (map ends out)
  /\ (forall e1 e2, In e1 out -> In e2 out ->
        ~ (from_user e1 = to_user e2 /\ to_user e1 = from_user e2)).

(** What the group scope nets between [a] and [b]: positive when [a] owes
    [b].  It is the [net] of [visit] at the key of [a] and [b]. *)
Definition group_net (balances : dict) (a b : string) : number :=
  sub (or0 (lookup balances (make_key a b))) (or0 (lookup balances (make_key b a))).

Definition finite_expense (e : expense) : Prop :=
  Forall (fun s => exists m, split_amount s = Fin m) (expense_splits e).


(** ** Vocabulary of the further properties *)

(** The store [d] with one more row in [expenses]. *)
Definition with_expense (d : Store.db) (e : Store.expense) : Store.db :=
  Store.mk_db (Store.users d) (Store.group_members d) (Store.expenses d ++ [e])%list
              (Store.expense_splits d) (Store.settlements d).

(** The store [d] with one more expense and its split rows. *)
Definition with_expense_and_splits (d : Store.db) (e : Store.expense)
    (rows : list Store.expense_split) : Store.db :=
  Store.mk_db (Store.users d) (Store.group_members d) (Store.expenses d ++ [e])%list
              (Store.expense_splits d ++ rows)%list (Store.settlements d).



(** The ledger holds a debt or a payment between [a] and [b], in either
    direction: a split of one in an expense paid by the other, or a
    settlement between the two. *)
Definition linked (expenses : list expense) (settlements : list Store.settlement)
    (a b : string) : Prop :=
  (exists e s, In e expenses /\ In s (expense_splits e)
               /\ ((user_id s = a /\ paid_by e = b) \/ (user_id s = b /\ paid_by e = a)))
  \/ (exists s, In s settlements
                /\ ((Store.settlement_paid_by s = a /\ Store.settlement_paid_to s = b)
                    \/ (Store.settlement_paid_by s = b /\ Store.settlement_paid_to s = a))).

(** Keys of a dictionary that all satisfy [P]. *)
Definition all_keys (P : string -> Prop) (o : dict) : Prop :=
  forall k, In k (keys o) -> P k.

(** A key between two linked members whose identifiers hold no ['-']. *)
Definition linked_key (expenses : list expense) (settlements : list Store.settlement)
    (key : string) : Prop :=
  exists a b, key = make_key a b /\ dash_free a /\ dash_free b
              /\ linked expenses settlements a b.
(** A settlement with a finite amount. *)
Definition finite_settlement (s : Store.settlement) : Prop :=
  exists a, Store.settlement_amount s = Fin a.

(** Every entry of the dictionary is a finite number. *)
Definition finite_values (o : dict) : Prop :=
  Forall (fun kv : string * number => exists q, snd kv = Fin q) o.

Definition sum_N (l : list N) : N := fold_right N.add 0%N l.

(* ===================================================================== *)
(** ** groupController.js and userController.js *)
(* ===================================================================== *)

Module Directory.

(** A row of [groups]; [created_at] is not modelled. *)
Record group : Type := mk_group {
  group_id_of : string;
  group_name : string;
  group_description : string;
  group_created_by : string }.

(** The tables the two controllers use: [users] and [group_members] of
    the store, and [groups]. *)
Record world : Type := mk_world {
  store : Store.db;
  groups : list group }.

Definition users (w : world) : list Store.user := Store.users (store w).
Definition members (w : world) : list Store.group_member :=
  Store.group_members (store w).

Definition with_user (w : world) (u : Store.user) : world :=
  let d := store w in
  mk_world (Store.mk_db (Store.users d ++ [u]) (Store.group_members d)
                        (Store.expenses d) (Store.expense_splits d)
                        (Store.settlements d))
           (groups w).

Definition with_group (w : world) (g : group) : world :=
  mk_world (store w) (groups w ++ [g]).

Definition with_member (w : world) (m : Store.group_member) : world :=
  let d := store w in
  mk_world (Store.mk_db (Store.users d) (Store.group_members d ++ [m])
                        (Store.expenses d) (Store.expense_splits d)
                        (Store.settlements d))
           (groups w).

Definition has_user (w : world) (uid : string) : bool :=
  existsb (fun u => String.eqb (Store.user_id_of u) uid) (users w).

Definition has_group (w : world) (gid : string) : bool :=
  existsb (fun g => String.eqb (group_id_of g) gid) (groups w).

Definition has_member (w : world) (gid uid : string) : bool :=
  existsb (fun m => (String.eqb (Store.member_group_id m) gid
                     && String.eqb (Store.member_user_id m) uid)%bool)
          (members w).

Definition find_group (w : world) (gid : string) : option group :=
  List.find (fun g => String.eqb (group_id_of g) gid) (groups w).

(** What the handlers see of a refused insert: [error.code === '23505']
    (a UNIQUE or PRIMARY KEY constraint), or any other code. *)
Inductive refusal : Type := unique_violation | other_error.

Inductive inserted (A : Type) : Type :=
| Stored (row : A) (w : world)
| Refused (why : refusal).
Arguments Stored {A} row w.
Arguments Refused {A} why.

Section Handlers.

(** How the database reads a JSON value sent to a [uuid] column: the
    canonical text of the identifier, or [None] for an invalid input. *)
Variable uuid_of : value -> option string.

(** How it writes a JSON value that is not a string into a [text] column. *)
Variable text_of : value -> string.

(** [o.length > 0] for an object [o]. *)
Variable length_positive : list (string * value) -> bool.

(** A [uuid NOT NULL] column without default: an absent or [null] value is
    refused as an invalid one is. *)
Definition uuid_column (v : value) : option string :=
  match v with
  | VUndefined | VNull => None
  | _ => uuid_of v
  end.

(** A [text NOT NULL] column. *)
Definition text_column (v : value) : option string :=
  match v with
  | VUndefined | VNull => None
  | VStr s => Some s
  | _ => Some (text_of v)
  end.

(** [from('users').insert([{ email, name }]).select().single()], where
    [uid] is the identifier [gen_random_uuid()] draws. *)
Definition insert_user (uid : string) (w : world) (email name : value)
  : inserted Store.user :=
  match text_column email, text_column name with
  | Some e, Some n =>
      if existsb (fun u => (String.eqb (Store.user_id_of u) uid
                            || String.eqb (Store.user_email u) e)%bool) (users w)
      then Refused unique_violation
      else let u := Store.mk_user uid n e in Stored u (with_user w u)
  | _, _ => Refused other_error
  end.

(** [from('groups').insert([{ name, description, created_by }])]. *)
Definition insert_group (gid : string) (w : world) (name description created_by : value)
  : inserted group :=
  match text_column name, text_column description, uuid_column created_by with
  | Some n, Some t, Some c =>
      if has_group w gid then Refused unique_violation
      else if has_user w c then
        let g := mk_group gid n t c in Stored g (with_group w g)
      else Refused other_error
  | _, _, _ => Refused other_error
  end.

(** One row [{ group_id, user_id }] sent to [group_members]. *)
Definition insert_member (w : world) (group_id user_id : value)
  : inserted Store.group_member :=
  match uuid_column group_id, uuid_column user_id with
  | Some g, Some u =>
      if has_member w g u then Refused unique_violation
      else if (has_group w g && has_user w u)%bool then
        let m := Store.mk_member g u in Stored m (with_member w m)
      else Refused other_error
  | _, _ => Refused other_error
  end.

(** [from('group_members').insert(members)]: one statement, all rows or
    none. *)
Fixpoint insert_members (w : world) (rows : list (value * value)) : option world :=
  match rows with
  | [] => Some w
  | (g, u) :: rest =>
      match insert_member w g u with
      | Stored _ w' => insert_members w' rest
      | Refused _ => None
      end
  end.

(** *** userController.js *)

Record user_body : Type := mk_user_body {
  email : value;
  user_name : value }.

Definition createUser (uid : string) (w : world) (b : user_body)
  : response Store.user * world :=
  if (JS.falsy (email b) || JS.falsy (user_name b))%bool then
    (Failure 400 "Email and name are required", w)
  else
    match insert_user uid w (email b) (user_name b) with
    | Stored u w' => (Reply 201 u, w')
    | Refused unique_violation =>
        (Failure 409 "User with this email already exists", w)
    | Refused other_error => (internal_error, w)
    end.

(** [from('users').select('*').eq('id', id).maybeSingle()]: [None] is the
    error of an [id] that is no uuid. *)
Definition select_user (w : world) (id : string) : option (option Store.user) :=
  match uuid_column (VStr id) with
  | Some u => Some (Balance.find_user (store w) u)
  | None => None
  end.

Definition getUserById (w : world) (id : string) : response Store.user :=
  match select_user w id with
  | None => internal_error
  | Some None => Failure 404 "User not found"
  | Some (Some u) => Reply 200 u
  end.

(** *** groupController.js *)

Record group_body : Type := mk_group_body {
  name : value;
  description : value;
  created_by : value;
  member_ids : value }.

(** [member_ids && member_ids.length > 0]: an array or a string has its
    length, an object its [length] property, any other value none. *)
Definition has_members (member_ids : value) : bool :=
  match member_ids with
  | VArr l => negb (Nat.eqb (length l) 0)
  | VStr s => negb (String.eqb s "")
  | VObj o => length_positive o
  | _ => false
  end.

(** The rows [members]; [None] is the TypeError of [member_ids.map] on a
    value that is no array. *)
Definition member_rows (gid : string) (created_by member_ids : value)
  : option (list (value * value)) :=
  if has_members member_ids then
    match member_ids with
    | VArr l => Some (map (fun user_id => (VStr gid, user_id)) l)
    | _ => None
    end
  else Some [(VStr gid, created_by)].

(** [gid] is the identifier [gen_random_uuid()] draws for the group. *)
Definition createGroup (gid : string) (w : world) (b : group_body)
  : response group * world :=
  if (JS.falsy (name b) || JS.falsy (created_by b))%bool then
    (Failure 400 "Name and created_by are required", w)
  else
    match insert_group gid w (name b)
            (if JS.truthy (description b) then description b else VStr "")
            (created_by b) with
    | Refused _ => (internal_error, w)
    | Stored group w1 =>
        match member_rows (group_id_of group) (created_by b) (member_ids b) with
        | None => (internal_error, w1)
        | Some rows =>
            match insert_members w1 rows with
            | None => (internal_error, w1)
            | Some w2 => (Reply 201 group, w2)
            end
        end
    end.

(** A group with the embedded [users!groups_created_by_fkey]. *)
Record group_view : Type := mk_group_view {
  view_group : group;
  view_creator : option Store.user }.

Definition joined_group (w : world) (gid : string) : option group_view :=
  match find_group w gid with
  | Some g => Some (mk_group_view g (Balance.find_user (store w) (group_created_by g)))
  | None => None
  end.

Definition getUserGroups (w : world) (userId : string)
  : response (list (option group_view)) :=
  match uuid_column (VStr userId) with
  | None => internal_error
  | Some u =>
      Reply 200
        (map (fun m => joined_group w (Store.member_group_id m))
             (List.filter (fun m => String.eqb (Store.member_user_id m) u) (members w)))
  end.

Record group_details : Type := mk_group_details {
  details_group : group_view;
  details_members : list (option Store.user) }.

Definition getGroupById (w : world) (id : string) : response group_details :=
  match uuid_column (VStr id) with
  | None => internal_error
  | Some g =>
      match joined_group w g with
      | None => Failure 404 "Group not found"
      | Some group =>
          Reply 200
            (mk_group_details group
               (map (fun m => Balance.find_user (store w) (Store.member_user_id m))
                    (List.filter (fun m => String.eqb (Store.member_group_id m) g)
                            (members w))))
      end
  end.

Definition addGroupMember (w : world) (groupId : string) (user_id : value)
  : response Store.group_member * world :=
  if JS.falsy user_id then (Failure 400 "user_id is required", w)
  else
    match insert_member w (VStr groupId) user_id with
    | Stored m w' => (Reply 201 m, w')
    | Refused unique_violation =>
        (Failure 409 "User is already a member of this group", w)
    | Refused other_error => (internal_error, w)
    end.

End Handlers.

End Directory.

(** ** Vocabulary of the directory properties *)

(** A reading of [uuid] columns for the worked examples: a string of 36
    characters stands for itself. *)
Definition read_uuid (v : value) : option string :=
  match v with
  | VStr s => if Nat.eqb (String.length s) 36 then Some s else None
  | _ => None
  end.

Definition no_text (v : value) : string := "".
Definition no_length (o : list (string * value)) : bool := false.

(** Every member row refers to a stored group (the foreign key of
    [group_members.group_id]). *)
Definition members_in_groups (w : Directory.world) : Prop :=
  Forall (fun m => Directory.has_group w (Store.member_group_id m) = true)
         (Directory.members w).

Definition with_members (w : Directory.world) (ms : list Store.group_member)
  : Directory.world :=
  fold_left Directory.with_member ms w.

(** Three users, no group yet; and the request of a group named "Flat". *)
Definition alice : Store.user :=
  Store.mk_user Walkthrough.alice_uuid "Alice" "alice@example.com".
Definition bob : Store.user :=
  Store.mk_user Walkthrough.bob_uuid "Bob" "bob@example.com".
Definition carol : Store.user :=
  Store.mk_user Walkthrough.carol_uuid "Carol" "carol@example.com".

Definition campus : Directory.world :=
  Directory.mk_world (Store.mk_db [alice; bob; carol] [] [] [] []) [].

Definition flat (creator : string) (member_ids : value) : Directory.group_body :=
  Directory.mk_group_body (VStr "Flat") VUndefined (VStr creator) member_ids.

Definition flat_group (creator : string) : Directory.group :=
  Directory.mk_group Walkthrough.group_uuid "Flat" "" creator.

Definition open_flat (creator : string) (member_ids : value) : Directory.world :=
  snd (Directory.createGroup read_uuid no_text no_length Walkthrough.group_uuid
         campus (flat creator member_ids)).
(** The views of [a] and of [b] mirror each other: what [a] holds toward
    [b] is the opposite of what [b] holds toward [a]. *)
Definition mirrored (a b : string) (ua ub : dict) : Prop :=
  exists z z', or0 (lookup ua b) = Fin z /\ or0 (lookup ub a) = Fin z' /\ (z' == - z)%Q.

(** The store with one more settlement. *)
Definition with_settlement (d : Store.db) (s : Store.settlement) : Store.db :=
  Store.mk_db (Store.users d) (Store.group_members d) (Store.expenses d)
              (Store.expense_splits d) (Store.settlements d ++ [s]).

(* ===================================================================== *)
(** ** CreateGroup.tsx: the request of the form *)
(* ===================================================================== *)

Module Form.

(** [[...new Set(ids)]]: the identifiers in the order of their first
    occurrence. *)
Definition set_of (ids : list string) : list string :=
  fold_left (fun seen id => if existsb (String.eqb id) seen then seen
                            else (seen ++ [id])%list)
            ids [].

(** [handleSubmit]: nothing is sent without a current user; otherwise the
    body [{ name, description, created_by, member_ids }], as the server
    parses it. *)
Definition handleSubmit (currentUser : option Store.user) (name description : string)
    (selectedMembers : list string) : option Directory.group_body :=
  match currentUser with
  | None => None
  | Some u =>
      let memberIds := set_of (Store.user_id_of u :: selectedMembers) in
      Some (Directory.mk_group_body (VStr name) (VStr description)
                                    (VStr (Store.user_id_of u))
                                    (VArr (map VStr memberIds)))
  end.

End Form.

(** An identifier in canonical form that belongs to a stored user. *)
Definition known_user (uuid_of : value -> option string) (w : Directory.world)
    (id : string) : Prop :=
  uuid_of (VStr id) = Some id /\ Directory.has_user w id = true.

(* ===================================================================== *)
(** * Properties *)
(* ===================================================================== *)

(** ** Worked examples of the group netting *)

(** C1 (settlement cancellation).  One expense (A pays 90, split equally
    among A, B, C) and one settlement (B pays A 30): the settlement is
    subtracted from the entry of the key ["A-B"], the reverse of B's debt
    key ["B-A"], and the netting [balances["B-A"] - balances["A-B"]] then
    adds it to B's debt.  [getGroupBalances] reports two edges, B owes A
    60.00 and C owes A 30.00: B's debt is doubled, not cancelled.  (Before
    the settlement B and C owe 30.00 each.  With the identifiers of the
    database the same ledger gives three edges between fragments of
    identifiers.) *)
Theorem settlement_doubles_debt_in_group_balances :
  accumulate (expenses_in dinner_settled ["G"]) (settlements_in dinner_settled ["G"])
  = [("B-A", Fin (3000 # 100)); ("C-A", Fin (3000 # 100)); ("A-B", Fin (-30))]
  /\ group_edges dinner_settled "G"
     = [mk_edge "B" "A" "60.00"; mk_edge "C" "A" "30.00"]
  /\ group_edges dinner "G"
     = [mk_edge "B" "A" "30.00"; mk_edge "C" "A" "30.00"]
  /\ group_edges dinner_uuid group_uuid
     = [mk_edge "aaaaaaaa" "bbbb" "30.00"; mk_edge "cccccccc" "dddd" "30.00";
        mk_edge "2222" "11111111" "30.00"].
Proof. repeat split; vm_compute; reflexivity. Qed.

(** C3 (three-way netting).  A pays 300, B pays 90, C pays 60, each split
    equally among A, B, C: the netting yields B owes A 70.00, C owes A
    80.00, C owes B 10.00.  After the settlement C pays A 50 the edges from
    B to A and from C to B are unchanged, and the edge from C to A reads
    130.00: the payment is added to the debt instead of being deducted. *)
Theorem three_way_netting_and_settlement :
  group_edges trip "G"
  = [mk_edge "B" "A" "70.00"; mk_edge "C" "A" "80.00"; mk_edge "C" "B" "10.00"]
  /\ group_edges trip_settled "G"
     = [mk_edge "B" "A" "70.00"; mk_edge "C" "A" "130.00"; mk_edge "C" "B" "10.00"].
Proof. split; vm_compute; reflexivity. Qed.

(** C2 (group scope against user scope).  On the ledger of C1 the group
    query reports that B owes A 60.00 and the user query for A agrees (B is
    in [owed] with 60.00), but the user query for B reports nothing toward
    A: for the payer of a settlement the two scopes disagree.  With the
    identifiers of the database they disagree without any settlement: for
    two members who owe each other 50 and 30 the user query nets 20.00
    toward the other member, the group query reports 50.00 and 30.00
    between fragments of identifiers. *)
Theorem group_and_user_scope_disagree :
  group_edges dinner_settled "G" = [mk_edge "B" "A" "60.00"; mk_edge "C" "A" "30.00"]
  /\ user_entries dinner_settled "G" "A" = ([], [("B", "60.00"); ("C", "30.00")])
  /\ user_entries dinner_settled "G" "B" = ([], [])
  /\ group_edges (mutual group_uuid alice_uuid bob_uuid) group_uuid
     = [mk_edge "11111111" "2222" "50.00"; mk_edge "aaaaaaaa" "bbbb" "30.00"]
  /\ user_entries (mutual group_uuid alice_uuid bob_uuid) group_uuid alice_uuid
     = ([(bob_uuid, "20.00")], []).
Proof. repeat split; vm_compute; reflexivity. Qed.

(** ** Keys and their endpoints *)

Section KeyFacts.

Lemma split_dash_nonempty (s : string) : split_dash s <> [].
Proof.
  destruct s as [|c s]; simpl; [discriminate|].
  destruct (Ascii.eqb c "-"); [discriminate|].
  destruct (split_dash s); discriminate.
Qed.

Lemma split_dash_join (a b : string) :
  split_dash (make_key a b) = (split_dash a ++ split_dash b)%list.
Proof.
  unfold make_key. induction a as [|c a IH]; simpl.
  - reflexivity.
  - destruct (Ascii.eqb c "-").
    + simpl in IH. rewrite IH. reflexivity.
    + simpl in IH. rewrite IH.
      pose proof (split_dash_nonempty a) as Hne.
      destruct (split_dash a) as [|h t]; [congruence|]. reflexivity.
Qed.

Lemma split_dash_no_dash (s : string) :
  has_dash s = false -> split_dash s = [s].
Proof.
  induction s as [|c s IH]; simpl; intros H; [reflexivity|].
  apply orb_false_iff in H as [Hc Hs]. rewrite Hc, (IH Hs). reflexivity.
Qed.

Lemma split_dash_two (s : string) :
  has_dash s = true -> exists f t rest, split_dash s = f :: t :: rest.
Proof.
  induction s as [|c s IH]; simpl; intros H; [discriminate|].
  destruct (Ascii.eqb c "-") eqn:Hc.
  - pose proof (split_dash_nonempty s) as Hne.
    destruct (split_dash s) as [|h t]; [congruence|]. eauto.
  - simpl in H. destruct (IH H) as (f & t & rest & ->). eauto.
Qed.

Lemma split_dash_fragments (s : string) :
  Forall (fun f => has_dash f = false) (split_dash s).
Proof.
  induction s as [|c s IH]; simpl.
  - repeat constructor.
  - destruct (Ascii.eqb c "-") eqn:Hc.
    + constructor; [reflexivity|exact IH].
    + destruct (split_dash s) as [|h t]; [repeat constructor; simpl; rewrite Hc; reflexivity|].
      inversion IH; subst. constructor; [|assumption].
      simpl. rewrite Hc. assumption.
Qed.

(** Every character of [s] is in one fragment or is one of the dashes
    between two fragments. *)
Lemma split_dash_size (s : string) :
  list_sum (map (fun f => S (String.length f)) (split_dash s)) = S (String.length s).
Proof.
  induction s as [|c s IH]; simpl; [reflexivity|].
  destruct (Ascii.eqb c "-"); simpl.
  - rewrite IH. reflexivity.
  - destruct (split_dash s) as [|h t]; simpl in *; lia.
Qed.

Lemma make_key_length (a b : string) :
  String.length (make_key a b) = S (String.length a + String.length b).
Proof.
  unfold make_key. induction a as [|c a IH]; simpl; [reflexivity|].
  simpl in IH. rewrite IH. reflexivity.
Qed.

Lemma endpoints_make_key (a b : string) :
  endpoints (make_key a b)
  = if has_dash a then endpoints a else (a, nth 0 (split_dash b) "undefined").
Proof.
  unfold endpoints. rewrite split_dash_join.
  destruct (has_dash a) eqn:Ha.
  - destruct (split_dash_two a Ha) as (f & t & rest & ->). reflexivity.
  - rewrite (split_dash_no_dash a Ha). reflexivity.
Qed.


Lemma split_dash_single (s x : string) :
  split_dash s = [x] -> has_dash s = false.
Proof.
  intros H. destruct (has_dash s) eqn:Hs; [|reflexivity].
  destruct (split_dash_two s Hs) as (f & t & rest & Heq). congruence.
Qed.

Lemma endpoints_exact (a b : string) :
  endpoints (make_key a b) = (a, b) <-> has_dash a = false /\ has_dash b = false.
Proof.
  split.
  - intros H. unfold endpoints in H. rewrite split_dash_join in H.
    pose proof (split_dash_fragments a) as Fa.
    pose proof (split_dash_fragments b) as Fb.
    pose proof (split_dash_nonempty b) as Nb.
    destruct (split_dash a) as [|x xs] eqn:Ea; [now apply split_dash_nonempty in Ea|].
    destruct (split_dash b) as [|y ys]; [congruence|].
    inversion Fa as [|? ? Hx Hxs]; subst. inversion Fb as [|? ? Hy Hys]; subst.
    destruct xs as [|x2 xs]; simpl in H; inversion H; subst.
    + split; assumption.
    + inversion Hxs; subst. split; assumption.
  - intros [Ha Hb]. rewrite endpoints_make_key, Ha, (split_dash_no_dash b Hb).
    reflexivity.
Qed.

Lemma reverse_key_exact (a b : string) :
  make_key (snd (endpoints (make_key a b))) (fst (endpoints (make_key a b)))
  = make_key b a
  <-> has_dash a = false /\ has_dash b = false.
Proof.
  split.
  - intros H. apply (f_equal String.length) in H.
    rewrite !make_key_length in H.
    unfold endpoints in H. rewrite split_dash_join in H. simpl in H.
    pose proof (split_dash_size a) as Sa.
    pose proof (split_dash_size b) as Sb.
    destruct (split_dash a) as [|x xs] eqn:Ea; [now apply split_dash_nonempty in Ea|].
    destruct (split_dash b) as [|y ys] eqn:Eb; [now apply split_dash_nonempty in Eb|].
    destruct xs as [|x2 xs]; simpl in *.
    + destruct ys as [|y2 ys]; simpl in *; [|lia].
      split; eauto using split_dash_single.
    + lia.
  - intros Hab. apply endpoints_exact in Hab. rewrite Hab. reflexivity.
Qed.

End KeyFacts.

(** C9 (keys are split at every dash).  The endpoints of a key are the
    first two fragments of [key.split('-')].  They are the two identifiers
    the key was built from exactly when neither identifier holds a ['-'],
    and exactly then the reverse key is the key of the opposite direction.
    When the first identifier holds a ['-'], both endpoints are fragments
    of that identifier alone, whatever the second one is.  So two members
    with database identifiers who owe each other 50 and 30 get two edges
    between fragments, while with dash-free identifiers the same ledger is
    netted into one edge of 20.00. *)
Theorem key_endpoints_exact_iff_no_dash :
  (forall a b : string,
      endpoints (make_key a b)
      = if has_dash a then endpoints a else (a, nth 0 (split_dash b) "undefined"))
  /\ (forall a b : string,
        endpoints (make_key a b) = (a, b)
        <-> has_dash a = false /\ has_dash b = false)
  /\ (forall a b : string,
        make_key (snd (endpoints (make_key a b))) (fst (endpoints (make_key a b)))
        = make_key b a
        <-> has_dash a = false /\ has_dash b = false)
  /\ endpoints (make_key alice_uuid bob_uuid) = ("11111111", "2222")
  /\ group_edges (mutual group_uuid alice_uuid bob_uuid) group_uuid
     = [mk_edge "11111111" "2222" "50.00"; mk_edge "aaaaaaaa" "bbbb" "30.00"]
  /\ group_edges (mutual "G" "A" "B") "G" = [mk_edge "A" "B" "20.00"].
Proof.
  split; [exact endpoints_make_key|].
  split; [exact endpoints_exact|].
  split; [exact reverse_key_exact|].
  repeat split; vm_compute; reflexivity.
Qed.

(** C5 (one edge per unordered pair).  Two members with database
    identifiers who owe each other 50 and 30: the reverse key computed from
    the fragments matches no entry, so each direction is emitted on its
    own and the pair gets two edges instead of one edge of 20.00.  With
    the identifiers ["a-b"] and ["b-a"] the output holds the edge from
    ["a"] to ["b"] together with the edge from ["b"] to ["a"]. *)
Theorem opposite_debts_both_emitted :
  group_edges (mutual group_uuid alice_uuid bob_uuid) group_uuid
  = [mk_edge "11111111" "2222" "50.00"; mk_edge "aaaaaaaa" "bbbb" "30.00"]
  /\ group_edges crossed "G"
     = [mk_edge "a" "b" "10.00"; mk_edge "b" "a" "10.00"].
Proof. split; vm_compute; reflexivity. Qed.

(** ** Settlements in the user scope *)

Lemma lookup_assign_same (o : dict) (key : string) (v : number) :
  lookup (assign o key v) key = Some v.
Proof.
  unfold lookup. induction o as [|[k w] o IH]; simpl.
  - rewrite String.eqb_refl. reflexivity.
  - destruct (String.eqb key k) eqn:E; simpl; rewrite ?E; [reflexivity|exact IH].
Qed.

(** C4, counterexample.  The user A owes B 10 and pays B 50: the balance
    toward B goes from 10 to -40, and its magnitude from 10 to 40. *)
Lemma overpayment_increases_magnitude :
  ~ magnitude_not_increased "A" [("B", Fin 10)] (Store.mk_settlement "G" "A" "B" (Fin 50)).
Proof.
  intros H. specialize (H "B" eq_refl). vm_compute in H. discriminate.
Qed.

Lemma Qabs_sub_le_iff (b a : Q) :
  (0 < a)%Q -> (Qabs (b + - a) <= Qabs b <-> a <= 2 * b)%Q.
Proof.
  intros Ha. split.
  - intros H. apply Qabs_Qle_condition in H as [H1 H2].
    destruct (Qlt_le_dec b 0) as [Hb|Hb].
    + rewrite (Qabs_neg b) in H1 by lra. lra.
    + rewrite (Qabs_pos b) in H1 by lra. lra.
  - intros H. apply Qabs_Qle_condition.
    rewrite (Qabs_pos b) by lra. split; lra.
Qed.

(** C4, amended.  A settlement of a positive amount [a] paid by the queried
    user replaces the signed balance [b] toward the payee by [b - a]; the
    magnitude does not increase exactly when [a <= 2 b], that is, when the
    user owed the payee at least half of what is paid. *)
Theorem payer_settlement_magnitude (userId : string) (balances : dict)
    (s : Store.settlement) (b a : Q) :
  Store.settlement_paid_by s = userId ->
  running balances (Store.settlement_paid_to s) = Fin b ->
  Store.settlement_amount s = Fin a ->
  (0 < a)%Q ->
  lookup (add_settlement_for userId balances s) (Store.settlement_paid_to s)
  = Some (Fin (b + - a))
  /\ (Qabs (b + - a) <= Qabs b <-> a <= 2 * b)%Q.
Proof.
  intros Hp Hb Ha Hpos. split; [|apply Qabs_sub_le_iff; assumption].
  unfold add_settlement_for. rewrite Hp, String.eqb_refl, lookup_assign_same.
  unfold running in Hb. rewrite Hb, Ha. reflexivity.
Qed.

Lemma payer_settlement_magnitude_witness :
  lookup (add_settlement_for "A" [("B", Fin 50)] (Store.mk_settlement "G" "A" "B" (Fin 30))) "B"
  = Some (Fin (50 + - 30))
  /\ (Qabs (50 + - 30) <= Qabs 50 <-> 30 <= 2 * 50)%Q.
Proof.
  apply (payer_settlement_magnitude "A" [("B", Fin 50)]
           (Store.mk_settlement "G" "A" "B" (Fin 30)) 50 30);
    reflexivity.
Defined.

(** ** Validation in [createExpense] *)

Lemma is_str_inv (v : value) (lit : string) :
  is_str v lit = true -> v = VStr lit.
Proof.
  destruct v; simpl; try discriminate.
  intros H. apply String.eqb_eq in H. congruence.
Qed.

(** An unknown split kind is always answered with 400, and nothing is
    stored. *)
Lemma unknown_split_type_rejected (d : Store.db) (b : Expense.body) :
  Expense.known_split_type (Expense.split_type b) = false ->
  exists error, Expense.createExpense d b = (Failure 400 error, d).
Proof.
  intros H. unfold Expense.createExpense.
  destruct (Expense.missing_field b); [eauto|]. rewrite H. simpl. eauto.
Qed.

(** So is the number zero as amount: it is falsy. *)
Lemma zero_amount_rejected (d : Store.db) (b : Expense.body) (q : Q) :
  Expense.amount b = VNum (Fin q) -> (q == 0)%Q ->
  exists error, Expense.createExpense d b = (Failure 400 error, d).
Proof.
  intros Ha Hq. unfold Expense.createExpense.
  assert (Expense.missing_field b = true) as ->; [|eauto].
  unfold Expense.missing_field. rewrite Ha.
  assert (JS.falsy (VNum (Fin q)) = true) as ->.
  { unfold JS.falsy. simpl. apply Qeq_bool_iff in Hq. rewrite Hq. reflexivity. }
  rewrite !orb_true_r. reflexivity.
Qed.

(** C6 (validation of expense creation).  A negative amount is truthy and
    no test compares it with zero: the shares are computed ([-25.00] each)
    and the insert is attempted; only the CHECK of the table refuses it,
    which the handler answers with 500, not with a validation failure.
    An empty list of participants is truthy too: the expense is created,
    with no split.  [createSettlement] does test [parseFloat(amount) <= 0]
    and answers 400. *)
Theorem negative_amount_and_no_participant_not_rejected :
  let negative := equal_expense "G" "A" (-50) ["A"; "B"] in
  let nobody := equal_expense "G" "A" 90 [] in
  let created := Store.mk_expense 0 "G" "shared" (Fin 90) "A" "equal" in
  Expense.calculate negative
  = Expense.Calculated [Expense.mk_calculated (VStr "A") "-25.00" VNull;
                        Expense.mk_calculated (VStr "B") "-25.00" VNull]
  /\ Expense.createExpense Store.empty negative = (internal_error, Store.empty)
  /\ Expense.createExpense Store.empty nobody
     = (Reply 201 created, Store.mk_db [] [] [created] [] [])
  /\ Settlement.createSettlement Store.empty (payment "G" "A" "B" (-50))
     = (Failure 400 "amount must be greater than 0", Store.empty).
Proof. repeat split; vm_compute; reflexivity. Qed.

(** ** [NaN] in the tolerance checks *)

Lemma add_nan_r (x : number) : add x NaN = NaN.
Proof. destruct x; reflexivity. Qed.

Lemma readable_get (item : value) (field : string) :
  readable item -> exists v, get item field = Some v.
Proof. destruct item; simpl; intros H; try contradiction; eauto. Qed.

Lemma reduce_sum_nan_acc (field : string) (items : list value) :
  Forall readable items -> Expense.reduce_sum field items NaN = Some NaN.
Proof.
  induction 1 as [|item items Hr _ IH]; simpl; [reflexivity|].
  destruct (readable_get item field Hr) as [v ->]. simpl. exact IH.
Qed.

Lemma reduce_sum_nan (field : string) (items : list value) (sum : number) :
  Forall readable items -> Exists (reads_nan field) items ->
  Expense.reduce_sum field items sum = Some NaN.
Proof.
  intros Hr He. revert sum Hr.
  induction He as [item items (v & Hv & Hn)|item items _ IH]; intros sum Hr;
    inversion Hr as [|? ? Hitem Hrest]; subst; simpl.
  - rewrite Hv. simpl. rewrite Hn, add_nan_r. apply reduce_sum_nan_acc, Hrest.
  - destruct (readable_get item field Hitem) as [w ->]. simpl. apply IH, Hrest.
Qed.

Lemma exact_shares_computed (items : list value) :
  Forall readable items -> exists cs, mapM Expense.exact_share items = Some cs.
Proof.
  intros Hr. apply (mapM_is_Some_2 Expense.exact_share).
  eapply Forall_impl; [exact Hr|]. intros item Hitem.
  unfold compose, Expense.exact_share.
  destruct (readable_get item "user_id" Hitem) as [u ->].
  destruct (readable_get item "amount" Hitem) as [a ->]. simpl. eauto.
Qed.

Lemma percentage_shares_computed (total : value) (items : list value) :
  Forall readable items ->
  exists cs, mapM (Expense.percentage_share total) items = Some cs.
Proof.
  intros Hr. apply (mapM_is_Some_2 (Expense.percentage_share total)).
  eapply Forall_impl; [exact Hr|]. intros item Hitem.
  unfold compose, Expense.percentage_share.
  destruct (readable_get item "user_id" Hitem) as [u ->].
  destruct (readable_get item "percentage" Hitem) as [a ->]. simpl. eauto.
Qed.

Lemma calculated_not_validation_failure (d : Store.db) (b : Expense.body)
    (cs : list Expense.calculated) :
  Expense.calculate b = Expense.Calculated cs ->
  Expense.missing_field b = false ->
  Expense.known_split_type (Expense.split_type b) = true ->
  is_validation_failure (fst (Expense.createExpense d b)) = false.
Proof.
  intros Hc Hm Hk. unfold Expense.createExpense. rewrite Hm, Hk, Hc. simpl.
  destruct (Store.insert_expense d _) as [[e d1]|]; [|reflexivity].
  destruct (Store.insert_splits d1 _); reflexivity.
Qed.

(** C10 ([NaN] passes the tolerance checks).  In an [exact] (resp.
    [percentage]) expense whose participants can all be read, as soon as
    one amount (resp. percentage) parses to [NaN] the sum is [NaN], the
    comparison [Math.abs(sum - target) > 0.01] is false, the shares are
    computed and the reply is not a validation failure. *)
Theorem nan_share_passes_tolerance_check (b : Expense.body) (items : list value)
    (field : string) :
  Expense.splits b = VArr items ->
  (Expense.split_type b = VStr "exact" /\ field = "amount")
  \/ (Expense.split_type b = VStr "percentage" /\ field = "percentage") ->
  Forall readable items ->
  Exists (reads_nan field) items ->
  Expense.missing_field b = false ->
  Expense.reduce_sum field items zero = Some NaN
  /\ gt (abs (sub NaN (parseFloat (Expense.amount b)))) cent = false
  /\ gt (abs (sub NaN hundred)) cent = false
  /\ (exists cs, Expense.calculate b = Expense.Calculated cs)
  /\ forall d, is_validation_failure (fst (Expense.createExpense d b)) = false.
Proof.
  intros Hs Hk Hr He Hm.
  pose proof (reduce_sum_nan field items zero Hr He) as Hsum.
  assert (exists cs, Expense.calculate b = Expense.Calculated cs) as [cs Hcs].
  { unfold Expense.calculate. destruct Hk as [[Hk ->]|[Hk ->]]; rewrite Hk, Hs; simpl;
      rewrite Hsum; simpl.
    - destruct (exact_shares_computed items Hr) as [cs ->]. eauto.
    - destruct (percentage_shares_computed (Expense.amount b) items Hr) as [cs ->]. eauto. }
  split; [exact Hsum|].
  split; [destruct (parseFloat (Expense.amount b)); reflexivity|].
  split; [reflexivity|].
  split; [eauto|].
  intros d. apply (calculated_not_validation_failure d b cs Hcs Hm).
  destruct Hk as [[-> _]|[-> _]]; reflexivity.
Qed.

(** Amounts that are not numbers: the second participant sends ["abc"]. *)
Lemma nan_share_passes_tolerance_check_witness :
  let items := [VObj [("user_id", VStr "A"); ("amount", VNum (Fin 45))];
                VObj [("user_id", VStr "B"); ("amount", VStr "abc")]] in
  let b := Expense.mk_body (VStr "G") (VStr "shared") (VNum (Fin 90)) (VStr "A")
                           (VStr "exact") (VArr items) in
  Expense.reduce_sum "amount" items zero = Some NaN
  /\ gt (abs (sub NaN (parseFloat (Expense.amount b)))) cent = false
  /\ gt (abs (sub NaN hundred)) cent = false
  /\ (exists cs, Expense.calculate b = Expense.Calculated cs)
  /\ forall d, is_validation_failure (fst (Expense.createExpense d b)) = false.
Proof.
  intros items b.
  apply (nan_share_passes_tolerance_check b items "amount").
  - reflexivity.
  - left. split; reflexivity.
  - repeat constructor.
  - apply Exists_cons_tl, Exists_cons_hd. exists (VStr "abc"). split; reflexivity.
  - reflexivity.
Defined.

(** ** Printing with [toFixed(2)] and reading back *)

Section PrintParse.

Lemma read_digits_uint (d : Decimal.uint) (rest : string) (acc : N) (cnt : nat) :
  exists cnt',
    read_digits (NilEmpty.string_of_uint d +:+ rest) acc cnt
    = read_digits rest (uint_value d acc) cnt'.
Proof.
  revert acc cnt. induction d; intros acc cnt; simpl; eauto.
Qed.

Lemma uint_value_pos (d : Decimal.uint) (p : positive) :
  uint_value d (N.pos p) = N.pos (Pos.of_uint_acc d p).
Proof.
  revert p. induction d; intros p; simpl; [reflexivity| | | | | | | | | |];
    rewrite <- IHd; f_equal; lia.
Qed.

Lemma uint_value_zero (d : Decimal.uint) : uint_value d 0 = N.of_uint d.
Proof.
  unfold N.of_uint. induction d; simpl; try apply uint_value_pos.
  - reflexivity.
  - exact IHd.
Qed.

Lemma read_digits_string_of_N (n : N) (rest : string) :
  exists cnt, read_digits (string_of_N n +:+ rest) 0 0 = read_digits rest n cnt.
Proof.
  unfold string_of_N.
  destruct (read_digits_uint (N.to_uint n) rest 0%N 0%nat) as [cnt H].
  exists cnt. rewrite H, uint_value_zero, DecimalN.Unsigned.of_to. reflexivity.
Qed.

Lemma digit_of_digit_char (k : N) : (k < 10)%N -> digit_of (digit_char k) = Some k.
Proof.
  intros H.
  assert (k = 0 \/ k = 1 \/ k = 2 \/ k = 3 \/ k = 4 \/ k = 5 \/ k = 6 \/ k = 7
          \/ k = 8 \/ k = 9)%N as Hk by lia.
  repeat (destruct Hk as [->|Hk]; [reflexivity|]). subst. reflexivity.
Qed.

Lemma string_of_N_head (n : N) :
  exists c s, string_of_N n = String c s /\ digit_of c <> None.
Proof.
  unfold string_of_N. destruct n as [|p]; simpl.
  - exists "0"%char, "". split; [reflexivity|discriminate].
  - pose proof (DecimalPos.Unsigned.to_uint_nonnil p) as Hn.
    destruct (Pos.to_uint p); [congruence| | | | | | | | | |]; simpl;
      eexists _, _; (split; [reflexivity|discriminate]).
Qed.

Lemma digit_head (c : ascii) (s : string) :
  digit_of c <> None ->
  skip_space (String c s) = String c s
  /\ read_sign (String c s) = (false, String c s)
  /\ String.prefix "Infinity" (String c s) = false.
Proof.
  intros H.
  destruct c as [[] [] [] [] [] [] [] []];
    try (exfalso; apply H; reflexivity); repeat split; reflexivity.
Qed.

Lemma fixed2_head (n : N) :
  exists c s, fixed2 n = String c s /\ digit_of c <> None.
Proof.
  unfold fixed2. destruct (string_of_N_head (n / 100)) as (c & s & -> & Hc).
  simpl. eauto.
Qed.

Lemma cents_digits (n : N) :
  (10 * (10 * (n / 100) + (n / 10) mod 10) + n mod 10 = n)%N.
Proof.
  pose proof (N.div_mod n 10) as H1.
  pose proof (N.div_mod (n / 10) 10) as H2.
  rewrite N.Div0.div_div in H2. change (10 * 10)%N with 100%N in H2.
  specialize (H1 ltac:(lia)). specialize (H2 ltac:(lia)). lia.
Qed.

Lemma read_decimal_fixed2 (n : N) : read_decimal (fixed2 n) = Some (cents n).
Proof.
  unfold read_decimal, fixed2.
  destruct (read_digits_string_of_N (n / 100)
              ("." +:+ String (digit_char ((n / 10) mod 10))
                              (String (digit_char (n mod 10)) ""))) as [cnt ->].
  simpl.
  rewrite (digit_of_digit_char ((n / 10) mod 10)) by (apply N.mod_lt; lia).
  rewrite (digit_of_digit_char (n mod 10)) by (apply N.mod_lt; lia).
  replace (cnt + 2)%nat with (S (S cnt)) by lia.
  unfold cents. rewrite cents_digits. reflexivity.
Qed.

(** Reading back what [toFixed(2)] printed gives the rounded number of
    cents over 100, with the sign of the input. *)
Lemma parse_float_toFixed2 (q : Q) :
  parse_float (toFixed2 (Fin q))
  = let c := cents (Z.to_N (round_cents (Qabs q))) in
    Fin (if Qlt_le_dec q 0 then (- c)%Q else c).
Proof.
  unfold toFixed2, parse_float.
  destruct (fixed2_head (Z.to_N (round_cents (Qabs q)))) as (c & s & Hf & Hc).
  destruct (digit_head c s Hc) as (H1 & H2 & H3).
  destruct (Qlt_le_dec q 0).
  - rewrite Hf. change ("-" +:+ String c s) with (String "-" (String c s)).
    change (skip_space (String "-" (String c s))) with (String "-" (String c s)).
    change (read_sign (String "-" (String c s))) with (true, String c s).
    cbv iota beta. rewrite H3.
    rewrite <- Hf, read_decimal_fixed2. reflexivity.
  - rewrite Hf, H1, H2, H3. rewrite <- Hf, read_decimal_fixed2. reflexivity.
Qed.

End PrintParse.

(** ** Equal split *)

Section EqualSplit.

Lemma round_cents_close (q : Q) :
  (Qabs (inject_Z (round_cents q) / 100 - q) <= 5 # 1000)%Q.
Proof.
  unfold round_cents.
  pose proof (Qfloor_le (q * 100 + (1 # 2))) as Hl.
  pose proof (Qlt_floor (q * 100 + (1 # 2))) as Hu.
  rewrite inject_Z_plus in Hu.
  generalize dependent (inject_Z (Qfloor (q * 100 + (1 # 2)))). intros c Hl Hu.
  change (inject_Z 1) with 1%Q in Hu.
  apply Qabs_Qle_condition. unfold Qdiv. change (/ 100)%Q with (1 # 100)%Q.
  split; lra.
Qed.









End EqualSplit.


(** ** Exact split *)

Section ExactSplit.





End ExactSplit.


(** ** One edge per pair of members, for identifiers without ['-'] *)

Section Netting.

Lemma fold_left_invariant {S X : Type} (P : S -> Prop) (f : S -> X -> S)
    (l : list X) (init : S) :
  P init -> (forall st x, In x l -> P st -> P (f st x)) -> P (fold_left f l init).
Proof.
  revert init. induction l as [|x l IH]; intros init Hinit Hstep; simpl.
  - exact Hinit.
  - apply IH.
    + apply Hstep; [left; reflexivity|exact Hinit].
    + intros st y Hy. apply Hstep. right. exact Hy.
Qed.

Lemma keys_assign (o : dict) (key : string) (v : number) (k : string) :
  In k (keys (assign o key v)) -> k = key \/ In k (keys o).
Proof.
  unfold keys. induction o as [|[k' w] o IH]; simpl.
  - intros [H|[]]. left. symmetry. exact H.
  - destruct (String.eqb key k') eqn:E; simpl.
    + intros [H|H]; [right; left; exact H|right; right; exact H].
    + intros [H|H]; [right; left; exact H|].
      destruct (IH H) as [Hk|Hk]; [left; exact Hk|right; right; exact Hk].
Qed.

Lemma plain_keys_assign (o : dict) (a b : string) (v : number) :
  plain_keys o -> dash_free a -> dash_free b ->
  plain_keys (assign o (make_key a b) v).
Proof.
  intros Ho Ha Hb k Hk. apply keys_assign in Hk as [->|Hk].
  - exists a, b. repeat split; assumption.
  - apply Ho, Hk.
Qed.

Lemma plain_keys_add_expense (o : dict) (e : expense) :
  plain_keys o -> dash_free_expense e -> plain_keys (add_expense o e).
Proof.
  intros Ho [Hp Hs]. unfold add_expense.
  apply fold_left_invariant; [exact Ho|].
  intros st s Hin Hst. unfold add_split.
  destruct (negb (String.eqb (user_id s) (paid_by e))); [|exact Hst].
  apply plain_keys_assign; [exact Hst| |exact Hp].
  rewrite List.Forall_forall in Hs. apply Hs, Hin.
Qed.

Lemma plain_keys_accumulate (expenses : list expense)
    (settlements : list Store.settlement) :
  Forall dash_free_expense expenses ->
  Forall dash_free_settlement settlements ->
  plain_keys (accumulate expenses settlements).
Proof.
  intros He Hs. unfold accumulate.
  apply fold_left_invariant.
  - apply fold_left_invariant; [intros k []|].
    intros st e Hin Hst. apply plain_keys_add_expense; [exact Hst|].
    rewrite List.Forall_forall in He. apply He, Hin.
  - intros st s Hin Hst. unfold add_settlement.
    rewrite List.Forall_forall in Hs. destruct (Hs s Hin) as [Hby Hto].
    apply plain_keys_assign; assumption.
Qed.

Lemma make_key_inj (a b a' b' : string) :
  dash_free a -> dash_free b -> dash_free a' -> dash_free b' ->
  make_key a b = make_key a' b' -> a = a' /\ b = b'.
Proof.
  intros Ha Hb Ha' Hb' H.
  pose proof (proj2 (endpoints_exact a b) (conj Ha Hb)) as E.
  pose proof (proj2 (endpoints_exact a' b') (conj Ha' Hb')) as E'.
  rewrite H, E' in E. inversion E. split; reflexivity.
Qed.

(** A pair netted against itself is settled. *)
Lemma self_net_settled (x : number) : gt (abs (sub x x)) cent = false.
Proof.
  destruct x as [q| | |]; try reflexivity.
  unfold sub, neg, add, abs, gt, cent.
  assert (Qabs (q + - q) == 0)%Q as ->; [|reflexivity].
  assert (q + - q == 0)%Q as -> by ring. reflexivity.
Qed.

Lemma visit_netted (balances : dict) (st : list edge * gset string) (key : string) :
  plain_key key -> netted st -> netted (visit balances st key).
Proof.
  intros (a & b & -> & Ha & Hb) Hst. destruct st as [out processed].
  unfold visit. rewrite (proj2 (endpoints_exact a b) (conj Ha Hb)).
  destruct (bool_decide (make_key a b ∈ processed)) eqn:E1; [exact Hst|].
  destruct (bool_decide (make_key b a ∈ processed)) eqn:E2; [exact Hst|].
  apply bool_decide_eq_false in E1, E2. cbn [orb].
  destruct Hst as (Hin & Hnd & Hopp).
  set (net := sub (or0 (lookup balances (make_key a b)))
                  (or0 (lookup balances (make_key b a)))).
  assert (forall e, In e out ->
            make_key (from_user e) (to_user e)
              ∈ {[make_key a b]} ∪ ({[make_key b a]} ∪ processed)
            /\ make_key (to_user e) (from_user e)
                 ∈ {[make_key a b]} ∪ ({[make_key b a]} ∪ processed)
            /\ from_user e <> to_user e) as Hin'.
  { intros e He. destruct (Hin e He) as (K1 & K2 & K3).
    split; [|split; [|exact K3]]; do 2 (apply elem_of_union_r); assumption. }
  destruct (gt (abs net) cent) eqn:Hnet;
    [|split; [exact Hin'|split; [exact Hnd|exact Hopp]]].
  assert (a <> b) as Hab.
  { intros ->. unfold net in Hnet. rewrite self_net_settled in Hnet. discriminate. }
  assert (exists f t,
            ((if gt net zero then a else b) = f)
            /\ ((if gt net zero then b else a) = t)
            /\ ((f = a /\ t = b) \/ (f = b /\ t = a))) as (f & t & -> & -> & Hft).
  { destruct (gt net zero); eauto 10. }
  assert ((make_key f t ∉ processed) /\ (make_key t f ∉ processed)) as [Nft Ntf]
      by (destruct Hft as [[-> ->]|[-> ->]]; split; assumption).
  assert (f <> t) as Hne by (destruct Hft as [[-> ->]|[-> ->]]; congruence).
  assert (forall e, In e out -> ends e <> (f, t) /\ ends e <> (t, f)) as Hfresh.
  { intros e He. destruct (Hin e He) as (K1 & K2 & _). unfold ends.
    split; intros Heq; injection Heq as Hx Hy; rewrite Hx, Hy in K1; contradiction. }
  split; [|split].
  - intros e He. apply in_app_or in He as [He|[<-|[]]]; [apply Hin', He|]. simpl.
    rewrite !elem_of_union, !elem_of_singleton.
    split; [|split; [|exact Hne]]; destruct Hft as [[-> ->]|[-> ->]]; auto.
  - rewrite map_app. simpl. apply NoDup_app. split; [exact Hnd|]. split.
    + intros p Hp Hp'. apply list_elem_of_In in Hp.
      apply list_elem_of_singleton in Hp'. subst p.
      apply in_map_iff in Hp as (e & He & Hine).
      apply (proj1 (Hfresh e Hine)). exact He.
    + apply NoDup_singleton.
  - intros e1 e2 H1 H2 [Hx Hy].
    apply in_app_or in H1 as [H1|[<-|[]]]; apply in_app_or in H2 as [H2|[<-|[]]];
      simpl in *.
    + apply (Hopp e1 e2 H1 H2). split; assumption.
    + apply (proj2 (Hfresh e1 H1)). unfold ends. congruence.
    + apply (proj2 (Hfresh e2 H2)). unfold ends. congruence.
    + congruence.
Qed.

(** For a ledger whose identifiers hold no ['-'], [getGroupBalances] emits
    at most one edge per unordered pair of members: no edge twice, never an
    edge together with its reverse, and no edge from a member to
    themselves. *)
Theorem one_edge_per_pair_without_dash (expenses : list expense)
    (settlements : list Store.settlement) :
  Forall dash_free_expense expenses ->
  Forall dash_free_settlement settlements ->
  let out := groupBalances expenses settlements in
  NoDup (map ends out)
  /\ (forall e1 e2, In e1 out -> In e2 out ->
        ~ (from_user e1 = to_user e2 /\ to_user e1 = from_user e2))
  /\ (forall e, In e out -> from_user e <> to_user e).
Proof.
  intros He Hs out.
  pose proof (plain_keys_accumulate expenses settlements He Hs) as Hkeys.
  assert (netted (fold_left (visit (accumulate expenses settlements))
                            (keys (accumulate expenses settlements)) ([], ∅))) as H.
  { apply fold_left_invariant.
    - repeat split; try constructor; intros; contradiction.
    - intros st k Hk Hst. apply visit_netted; [apply Hkeys, Hk|exact Hst]. }
  unfold out, groupBalances, simplify.
  destruct (fold_left _ _ _) as [edges processed]. destruct H as (Hin & Hnd & Hopp).
  simpl. split; [exact Hnd|]. split; [exact Hopp|].
  intros e Hine. apply (Hin e Hine).
Qed.

End Netting.

(** ** Group scope and user scope on ledgers without settlements *)

Section Scopes.

Lemma lookup_assign_other (o : dict) (key k : string) (v : number) :
  key <> k -> lookup (assign o key v) k = lookup o k.
Proof.
  intros Hne. unfold lookup. induction o as [|[k' w] o IH]; simpl.
  - destruct (String.eqb_spec k key); [congruence|reflexivity].
  - destruct (String.eqb_spec key k') as [->|Hk]; simpl.
    + destruct (String.eqb_spec k k'); [congruence|reflexivity].
    + destruct (String.eqb_spec k k'); [reflexivity|exact IH].
Qed.

Lemma or0_finite (q : Q) : exists q', or0 (Some (Fin q)) = Fin q' /\ (q' == q)%Q.
Proof.
  unfold or0, Num.truthy. destruct (Qeq_bool q 0) eqn:E; simpl.
  - exists 0%Q. split; [reflexivity|]. apply Qeq_bool_iff in E. rewrite E. reflexivity.
  - exists q. split; reflexivity.
Qed.

Lemma make_key_neq (a b a' b' : string) :
  dash_free a -> dash_free b -> dash_free a' -> dash_free b' ->
  (a, b) <> (a', b') -> make_key a b <> make_key a' b'.
Proof.
  intros Ha Hb Ha' Hb' Hne Heq.
  destruct (make_key_inj a b a' b' Ha Hb Ha' Hb' Heq) as [-> ->]. apply Hne. reflexivity.
Qed.




End Scopes.

(** ** The direction of a settlement in the group scope *)

(** For the C1 and C3 ledgers in general: a settlement of [a] paid by [p]
    to [q] raises by [a] what the group scope nets from [p] to [q], where a
    repayment should lower it. *)
Lemma settlement_raises_payer_debt (balances : dict) (s : Store.settlement)
    (x y a : Q) :
  let p := Store.settlement_paid_by s in
  let q := Store.settlement_paid_to s in
  dash_free p -> dash_free q -> p <> q ->
  Store.settlement_amount s = Fin a ->
  or0 (lookup balances (make_key p q)) = Fin x ->
  or0 (lookup balances (make_key q p)) = Fin y ->
  equiv (group_net balances p q) (Fin (x - y))
  /\ equiv (group_net (add_settlement balances s) p q) (Fin (x - y + a)).
Proof.
  intros p q Hp Hq Hpq Ha Hx Hy. unfold group_net. split.
  - rewrite Hx, Hy. simpl. reflexivity.
  - unfold add_settlement. fold p q. rewrite lookup_assign_same, Hy, Ha.
    rewrite lookup_assign_other
      by (apply make_key_neq; try assumption; congruence).
    rewrite Hx. cbn [sub neg add].
    destruct (or0_finite (y + - a)) as (y' & -> & Ey).
    simpl. rewrite Ey. ring.
Qed.

(** ** The handlers over the store *)

(** [getGroupBalances] answers with the edges of [groupBalances] on the
    rows of the group, each endpoint replaced by the user record found for
    it, if any. *)
Lemma getGroupBalances_edges (isUUID : string -> bool) (d : Store.db) (groupId : string) :
  isUUID groupId = true ->
  getGroupBalances isUUID d groupId
  = Reply 200 (map (fun b => mk_balance (find_user d (from_user b))
                                        (find_user d (to_user b)) (amount b))
                   (group_edges d groupId)).
Proof. intros H. unfold getGroupBalances. rewrite H. reflexivity. Qed.

Lemma getGroupBalances_invalid (isUUID : string -> bool) (d : Store.db) (groupId : string) :
  isUUID groupId = false ->
  getGroupBalances isUUID d groupId = Failure 400 "Invalid groupId".
Proof. intros H. unfold getGroupBalances. rewrite H. reflexivity. Qed.

(** A user in no group gets empty lists and zero totals. *)
Lemma getUserBalances_no_group (isUUID : string -> bool) (d : Store.db) (userId : string) :
  isUUID userId = true ->
  (forall m, In m (Store.group_members d) -> Store.member_user_id m <> userId) ->
  getUserBalances isUUID d userId = Reply 200 (mk_user_balances [] [] "0.00" "0.00").
Proof.
  intros H Hm. unfold getUserBalances. rewrite H. simpl.
  assert (List.filter (fun m => String.eqb (Store.member_user_id m) userId)
                 (Store.group_members d) = []) as ->; [|reflexivity].
  induction (Store.group_members d) as [|m l IH]; [reflexivity|].
  cbn [List.filter]. destruct (String.eqb_spec (Store.member_user_id m) userId) as [E|E].
  - exfalso. apply (Hm m); [left; reflexivity|exact E].
  - apply IH. intros m' Hm'. apply Hm. right. exact Hm'.
Qed.

(** ** Sanity checks of the JavaScript fragment *)

Example toFixed2_third : toFixed2 (Fin (100 # 3)) = "33.33".
Proof. reflexivity. Qed.

Example toFixed2_tie_rounds_up : toFixed2 (Fin (125 # 1000)) = "0.13".
Proof. reflexivity. Qed.

Example toFixed2_small_negative : toFixed2 (Fin (- (1 # 1000))) = "-0.00".
Proof. reflexivity. Qed.

Example toFixed2_nan : toFixed2 NaN = "NaN".
Proof. reflexivity. Qed.

Example parse_float_prefix : equiv (parse_float "  -12.5e1xyz") (Fin (- 125)).
Proof. reflexivity. Qed.

Example parse_float_no_digit : parse_float ".e3" = NaN /\ parse_float "abc" = NaN.
Proof. split; reflexivity. Qed.

Example parseFloat_undefined : parseFloat VUndefined = NaN.
Proof. reflexivity. Qed.

Example split_dash_uuid :
  split_dash alice_uuid = ["11111111"; "2222"; "4333"; "8444"; "555555555555"].
Proof. reflexivity. Qed.

(** An exact split within the tolerance, end to end: 33.33 + 66.67 for a
    total of 100 is stored as one expense and two splits. *)
Example exact_split_created :
  let b := Expense.mk_body (VStr "G") (VStr "shared") (VNum (Fin 100)) (VStr "A")
             (VStr "exact")
             (VArr [VObj [("user_id", VStr "A"); ("amount", VNum (Fin (3333 # 100)))];
                    VObj [("user_id", VStr "B"); ("amount", VStr "66.67")]]) in
  let e := Store.mk_expense 0 "G" "shared" (Fin 100) "A" "exact" in
  Expense.createExpense Store.empty b
  = (Reply 201 e,
     Store.mk_db [] [] [e]
       [Store.mk_split 0 "A" (Fin (3333 # 100)) None;
        Store.mk_split 0 "B" (Fin (6667 # 100)) None] []).
Proof. vm_compute. reflexivity. Qed.

(** An amount that is not a number passes the check of the sum; the
    expense row is written, the splits are refused by the store, and the
    reply is 500. *)
Example nan_share_leaves_expense_without_splits :
  let b := Expense.mk_body (VStr "G") (VStr "shared") (VNum (Fin 90)) (VStr "A")
             (VStr "exact")
             (VArr [VObj [("user_id", VStr "A"); ("amount", VNum (Fin 45))];
                    VObj [("user_id", VStr "B"); ("amount", VStr "abc")]]) in
  let e := Store.mk_expense 0 "G" "shared" (Fin 90) "A" "exact" in
  Expense.calculate b
  = Expense.Calculated [Expense.mk_calculated (VStr "A") "45.00" VNull;
                        Expense.mk_calculated (VStr "B") "NaN" VNull]
  /\ Expense.createExpense Store.empty b
     = (internal_error, Store.mk_db [] [] [e] [] []).
Proof. split; vm_compute; reflexivity. Qed.

(** ** The payee's side of a settlement in the user scope *)

(** When the queried user received the payment the same subtraction is
    applied to the balance toward the payer: a balance of [-30] (the payer
    owes the user 30) becomes [-60] after the payer has paid 30. *)
Lemma payee_settlement_subtracts (userId : string) (balances : dict)
    (s : Store.settlement) (b a : Q) :
  Store.settlement_paid_to s = userId ->
  Store.settlement_paid_by s <> userId ->
  running balances (Store.settlement_paid_by s) = Fin b ->
  Store.settlement_amount s = Fin a ->
  lookup (add_settlement_for userId balances s) (Store.settlement_paid_by s)
  = Some (Fin (b + - a)).
Proof.
  intros Hto Hby Hb Ha. unfold add_settlement_for.
  destruct (String.eqb_spec (Store.settlement_paid_by s) userId) as [E|_];
    [contradiction|].
  rewrite Hto, String.eqb_refl, lookup_assign_same.
  unfold running in Hb. rewrite Hb, Ha. reflexivity.
Qed.

Example payee_balance_grows :
  add_settlement_for "A" [("B", Fin (-30))] (Store.mk_settlement "G" "B" "A" (Fin 30))
  = [("B", Fin (-30 + - 30))].
Proof. reflexivity. Qed.

(* ===================================================================== *)
(** * Further properties of the handlers *)
(* ===================================================================== *)

(** ** [createSettlement] *)

Section CreateSettlement.



Lemma le_zero_true (a : Q) : (a <= 0)%Q -> le (Fin a) zero = true.
Proof.
  intros Ha. unfold le, gt, zero.
  destruct (a ?= 0)%Q eqn:E; try reflexivity.
  apply Qgt_alt in E. exfalso. apply (Qlt_irrefl 0). eapply Qlt_le_trans; eassumption.
Qed.

End CreateSettlement.

(** A payment to oneself is always answered with 400 and nothing is
    stored, whatever the amount and the group. *)
Theorem self_settlement_rejected (d : Store.db) (b : Settlement.body) :
  Settlement.strict_eq (Settlement.paid_by b) (Settlement.paid_to b) = true ->
  exists error, Settlement.createSettlement d b = (Failure 400 error, d).
Proof.
  intros H. unfold Settlement.createSettlement.
  destruct (Settlement.missing_field b); [eauto|]. rewrite H. eauto.
Qed.

Lemma self_settlement_rejected_witness :
  exists error,
    Settlement.createSettlement dinner (payment "G" "A" "A" 30) = (Failure 400 error, dinner).
Proof.
  apply (self_settlement_rejected dinner (payment "G" "A" "A" 30)). reflexivity.
Defined.

(** An amount that reads as zero or as a negative number is always
    answered with 400 and nothing is stored; this includes the strings
    ["0"] and ["-5"], which are truthy. *)
Theorem non_positive_settlement_rejected (d : Store.db) (b : Settlement.body) (a : Q) :
  parseFloat (Settlement.amount b) = Fin a ->
  (a <= 0)%Q ->
  exists error, Settlement.createSettlement d b = (Failure 400 error, d).
Proof.
  intros Hp Ha. unfold Settlement.createSettlement.
  destruct (Settlement.missing_field b); [eauto|].
  destruct (Settlement.strict_eq _ _); [eauto|].
  rewrite Hp, (le_zero_true a Ha). eauto.
Qed.

Lemma non_positive_settlement_rejected_witness :
  exists error,
    Settlement.createSettlement dinner
      (Settlement.mk_body (VStr "G") (VStr "B") (VStr "A") (VStr "0"))
    = (Failure 400 error, dinner).
Proof.
  apply (non_positive_settlement_rejected dinner
           (Settlement.mk_body (VStr "G") (VStr "B") (VStr "A") (VStr "0")) (0 * 1));
    reflexivity || discriminate.
Defined.



(** An amount that does not read as a number (or reads as [Infinity]) is
    not caught by the test [parseFloat(amount) <= 0]: the insert is
    attempted, the store refuses the row and the reply is 500, not 400. *)
Theorem unreadable_settlement_amount_is_server_error (d : Store.db) (b : Settlement.body) :
  Settlement.missing_field b = false ->
  Settlement.strict_eq (Settlement.paid_by b) (Settlement.paid_to b) = false ->
  parseFloat (Settlement.amount b) = NaN \/ parseFloat (Settlement.amount b) = PosInf ->
  Settlement.createSettlement d b = (internal_error, d).
Proof.
  intros Hm He Hp. unfold Settlement.createSettlement. rewrite Hm, He.
  assert (le (parseFloat (Settlement.amount b)) zero = false) as ->
      by (destruct Hp as [-> | ->]; reflexivity).
  assert (Store.insert_settlement d (Settlement.settlement_row_of b) = None) as ->;
    [|reflexivity].
  unfold Store.insert_settlement, Settlement.settlement_row_of. simpl.
  destruct (Store.to_text (Settlement.group_id b)); [|reflexivity]. simpl.
  destruct (Store.to_text (Settlement.paid_by b)); [|reflexivity]. simpl.
  destruct (Store.to_text (Settlement.paid_to b)); [|reflexivity]. simpl.
  destruct Hp as [-> | ->]; reflexivity.
Qed.

Lemma unreadable_settlement_amount_is_server_error_witness :
  Settlement.createSettlement dinner
    (Settlement.mk_body (VStr "G") (VStr "B") (VStr "A") (VStr "abc"))
  = (internal_error, dinner).
Proof.
  apply (unreadable_settlement_amount_is_server_error dinner
           (Settlement.mk_body (VStr "G") (VStr "B") (VStr "A") (VStr "abc")));
    [reflexivity|reflexivity|left; reflexivity].
Defined.

(** ** [createExpense]: what is written *)

Section CreateExpenseEffect.

Lemma calculated_length (b : Expense.body) (cs : list Expense.calculated) :
  Expense.known_split_type (Expense.split_type b) = true ->
  Expense.calculate b = Expense.Calculated cs ->
  exists items, Expense.splits b = VArr items /\ length cs = length items.
Proof.
  unfold Expense.known_split_type, Expense.calculate. intros Hk.
  destruct (is_str (Expense.split_type b) "equal").
  { destruct (Expense.splits b) as [| | | | | |items]; try discriminate.
    intros [= <-]. exists items. split; [reflexivity|].
    unfold Expense.equal_split. apply length_map. }
  destruct (is_str (Expense.split_type b) "exact").
  { destruct (Expense.splits b) as [| | | | | |items]; try discriminate.
    destruct (Expense.reduce_sum _ _ _); [|discriminate].
    destruct (gt _ _); [discriminate|].
    destruct (mapM Expense.exact_share items) as [l|] eqn:E; simpl; [|discriminate].
    intros [= <-]. exists items. split; [reflexivity|].
    apply length_mapM in E. symmetry. exact E. }
  destruct (is_str (Expense.split_type b) "percentage"); [|discriminate].
  destruct (Expense.splits b) as [| | | | | |items]; try discriminate.
  destruct (Expense.reduce_sum _ _ _); [|discriminate].
  destruct (gt _ _); [discriminate|].
  destruct (mapM (Expense.percentage_share (Expense.amount b)) items) as [l|] eqn:E;
    simpl; [|discriminate].
  intros [= <-]. exists items. split; [reflexivity|].
  apply length_mapM in E. symmetry. exact E.
Qed.

Lemma insert_expense_effect (d : Store.db) (r : Store.expense_row)
    (e : Store.expense) (d1 : Store.db) :
  Store.insert_expense d r = Some (e, d1) ->
  d1 = with_expense d e /\ Store.expense_id e = length (Store.expenses d).
Proof.
  unfold Store.insert_expense.
  destruct (Store.to_text (Store.row_group_id r)); [|discriminate]. simpl.
  destruct (Store.to_text (Store.row_description r)); [|discriminate]. simpl.
  destruct (Store.to_numeric (Store.row_amount r)); [|discriminate]. simpl.
  destruct (Store.to_text (Store.row_paid_by r)); [|discriminate]. simpl.
  destruct (Store.to_text (Store.row_split_type r)); [|discriminate]. simpl.
  destruct (_ && _)%bool; [|discriminate].
  intros [= <- <-]. split; reflexivity.
Qed.

Lemma check_split_id (r : Store.split_row) (s : Store.expense_split) :
  Store.check_split r = Some s -> Store.split_expense_id s = Store.srow_expense_id r.
Proof.
  unfold Store.check_split.
  destruct (Store.to_text (Store.srow_user_id r)); [|discriminate]. simpl.
  destruct (Store.to_numeric (Store.srow_amount r)); [|discriminate]. simpl.
  destruct (Store.srow_percentage r) as [| | |[p| | |]| | |]; try discriminate;
    try (intros [= <-]; reflexivity).
  destruct (Store.in_percent_range p); [|discriminate]. intros [= <-]. reflexivity.
Qed.

Lemma insert_splits_effect (d : Store.db) (e : Store.expense)
    (cs : list Expense.calculated) (d2 : Store.db) :
  Store.insert_splits d (map (Expense.split_row_of e) cs) = Some d2 ->
  exists rows,
    d2 = Store.mk_db (Store.users d) (Store.group_members d) (Store.expenses d)
                     (Store.expense_splits d ++ rows)%list (Store.settlements d)
    /\ length rows = length cs
    /\ Forall (fun s => Store.split_expense_id s = Store.expense_id e) rows.
Proof.
  unfold Store.insert_splits.
  destruct (mapM Store.check_split (map (Expense.split_row_of e) cs)) as [rows|] eqn:E;
    [|discriminate].
  simpl. intros [= <-]. exists rows. split; [reflexivity|]. split.
  - apply length_mapM in E. rewrite length_map in E. symmetry. exact E.
  - apply mapM_Some_1 in E. clear -E.
    remember (map (Expense.split_row_of e) cs) as rs eqn:Hrs.
    revert cs Hrs. induction E as [|r s rs rows Hc _ IH]; intros cs Hrs.
    + constructor.
    + destruct cs as [|c cs]; [discriminate|]. simpl in Hrs. injection Hrs as -> ->.
      constructor; [|apply (IH cs eq_refl)].
      apply check_split_id in Hc. exact Hc.
Qed.

End CreateExpenseEffect.

(** Whatever the request, [createExpense] does one of three things: it
    answers 400 and writes nothing; it answers 500 having written nothing
    or the expense row alone (the two inserts are not one transaction); or
    it answers 201 having appended the expense and one split row per
    participant, each carrying the identifier of that expense.  The other
    tables are never touched. *)
Theorem createExpense_effect (d : Store.db) (b : Expense.body)
    (r : response Store.expense) (d' : Store.db) :
  Expense.createExpense d b = (r, d') ->
  (is_validation_failure r = true /\ d' = d)
  \/ (r = internal_error
      /\ (d' = d
          \/ exists e, d' = with_expense d e
                       /\ Store.expense_id e = length (Store.expenses d)))
  \/ (exists e rows items,
        r = Reply 201 e
        /\ d' = with_expense_and_splits d e rows
        /\ Store.expense_id e = length (Store.expenses d)
        /\ Forall (fun s => Store.split_expense_id s = Store.expense_id e) rows
        /\ Expense.splits b = VArr items
        /\ length rows = length items).
Proof.
  unfold Expense.createExpense.
  destruct (Expense.missing_field b); [intros [= <- <-]; left; split; reflexivity|].
  destruct (Expense.known_split_type (Expense.split_type b)) eqn:Hk; simpl;
    [|intros [= <- <-]; left; split; reflexivity].
  destruct (Expense.calculate b) as [cs|error|] eqn:Hc.
  - destruct (Store.insert_expense d (Expense.expense_row_of b)) as [[e d1]|] eqn:He;
      [|intros [= <- <-]; right; left; split; [reflexivity|left; reflexivity]].
    destruct (insert_expense_effect d _ e d1 He) as [-> Hid].
    destruct (Store.insert_splits _ _) as [d2|] eqn:Hs.
    + intros [= <- <-]. right; right.
      destruct (insert_splits_effect _ e cs d2 Hs) as (rows & -> & Hlen & Hall).
      destruct (calculated_length b cs Hk Hc) as (items & Hitems & Hcs).
      exists e, rows, items. repeat split; try assumption. congruence.
    + intros [= <- <-]. right; left. split; [reflexivity|]. right. eauto.
  - intros [= <- <-]. left. split; reflexivity.
  - intros [= <- <-]. right; left. split; [reflexivity|left; reflexivity].
Qed.

Lemma createExpense_effect_witness :
  (is_validation_failure
     (fst (Expense.createExpense Store.empty (equal_expense "G" "A" 90 ["A"; "B"; "C"])))
   = true
   /\ dinner = Store.empty)
  \/ (fst (Expense.createExpense Store.empty (equal_expense "G" "A" 90 ["A"; "B"; "C"]))
      = internal_error
      /\ (dinner = Store.empty
          \/ exists e, dinner = with_expense Store.empty e
                       /\ Store.expense_id e = length (Store.expenses Store.empty)))
  \/ (exists e rows items,
        fst (Expense.createExpense Store.empty (equal_expense "G" "A" 90 ["A"; "B"; "C"]))
        = Reply 201 e
        /\ dinner = with_expense_and_splits Store.empty e rows
        /\ Store.expense_id e = length (Store.expenses Store.empty)
        /\ Forall (fun s => Store.split_expense_id s = Store.expense_id e) rows
        /\ Expense.splits (equal_expense "G" "A" 90 ["A"; "B"; "C"]) = VArr items
        /\ length rows = length items).
Proof.
  apply (createExpense_effect Store.empty (equal_expense "G" "A" 90 ["A"; "B"; "C"])).
  unfold dinner, record_expense.
  destruct (Expense.createExpense Store.empty (equal_expense "G" "A" 90 ["A"; "B"; "C"])).
  reflexivity.
Defined.

(** ** Printing an amount and reading it back *)

Section Printing.

Lemma Qfloor_half (z : Z) : Qfloor (inject_Z z + (1 # 2)) = z.
Proof.
  pose proof (Qfloor_le (inject_Z z + (1 # 2))) as Hl.
  pose proof (Qlt_floor (inject_Z z + (1 # 2))) as Hu.
  set (f := Qfloor (inject_Z z + (1 # 2))) in *.
  assert (inject_Z f < inject_Z (z + 1))%Q as H1.
  { rewrite inject_Z_plus. change (inject_Z 1) with 1%Q. clearbody f. lra. }
  assert (inject_Z z < inject_Z (f + 1))%Q as H2.
  { clearbody f. lra. }
  rewrite <- Zlt_Qlt in H1, H2. lia.
Qed.

Lemma round_cents_of_cents (n : N) : round_cents (cents n) = Z.of_N n.
Proof.
  unfold round_cents, cents. rewrite <- (Qfloor_half (Z.of_N n)) at 2.
  apply Qfloor_comp. change (Qpower 10 (0 - 2)) with (1 # 100)%Q.
  generalize (inject_Z (Z.of_N n)). intros x. ring.
Qed.

Lemma cents_nonneg (n : N) : (0 <= cents n)%Q.
Proof.
  unfold cents. change (Qpower 10 (0 - 2)) with (1 # 100)%Q.
  assert (0 <= inject_Z (Z.of_N n))%Q as H.
  { change 0%Q with (inject_Z 0). rewrite <- Zle_Qle. lia. }
  generalize dependent (inject_Z (Z.of_N n)). intros x H. lra.
Qed.

Lemma toFixed2_cents (n : N) : toFixed2 (Fin (cents n)) = fixed2 n.
Proof.
  unfold toFixed2. pose proof (cents_nonneg n) as H.
  destruct (Qlt_le_dec (cents n) 0) as [Hn|_]; [lra|].
  assert (round_cents (Qabs (cents n)) = Z.of_N n) as ->.
  { rewrite <- round_cents_of_cents. unfold round_cents. apply Qfloor_comp.
    rewrite Qabs_pos by exact H. reflexivity. }
  rewrite N2Z.id. reflexivity.
Qed.

Lemma abs_round_close (q : Q) :
  (Qabs (inject_Z (round_cents (Qabs q)) / 100 - Qabs q) <= 5 # 1000)%Q.
Proof. apply round_cents_close. Qed.

End Printing.


(** Printing is stable: an amount that was printed with [toFixed(2)],
    stored, and read back prints as the same string (for non-negative
    amounts; ["-0.00"] reads back as zero and prints as ["0.00"]). *)
Theorem printed_amount_prints_the_same (q : Q) (v : Q) :
  (0 <= q)%Q ->
  parse_float (toFixed2 (Fin q)) = Fin v ->
  toFixed2 (Fin v) = toFixed2 (Fin q).
Proof.
  intros Hq Hv. rewrite parse_float_toFixed2 in Hv. cbv zeta in Hv.
  destruct (Qlt_le_dec q 0) as [Hn|_]; [lra|]. injection Hv as <-.
  rewrite toFixed2_cents. unfold toFixed2.
  destruct (Qlt_le_dec q 0) as [Hn|_]; [lra|]. reflexivity.
Qed.

Lemma printed_amount_prints_the_same_witness :
  toFixed2 (Fin (cents 3333)) = toFixed2 (Fin (100 # 3)).
Proof.
  apply (printed_amount_prints_the_same (100 # 3) (cents 3333)).
  - discriminate.
  - reflexivity.
Defined.

Example negative_zero_prints_differently :
  toFixed2 (Fin (- (1 # 1000))) = "-0.00"
  /\ (exists v, parse_float "-0.00" = Fin v /\ toFixed2 (Fin v) = "0.00").
Proof. split; [reflexivity|]. eexists. split; reflexivity. Qed.

(** ** Percentage split *)

Section PercentageSplit.



End PercentageSplit.



(** ** [createExpense]: edge cases of the participant list *)

(** A [splits] value that is not an array (a string, a number, an object)
    passes the test of the required fields when it is truthy; calling
    [map] or [reduce] on it throws, and the reply is 500 with nothing
    stored. *)
Theorem splits_not_an_array_is_server_error (d : Store.db) (b : Expense.body) :
  Expense.missing_field b = false ->
  Expense.known_split_type (Expense.split_type b) = true ->
  (forall items, Expense.splits b <> VArr items) ->
  Expense.createExpense d b = (internal_error, d).
Proof.
  intros Hm Hk Hn. unfold Expense.createExpense. rewrite Hm, Hk. simpl.
  assert (Expense.calculate b = Expense.Thrown) as ->; [|reflexivity].
  unfold Expense.calculate, Expense.known_split_type in *.
  destruct (Expense.splits b) as [| | | | | |items];
    try (destruct (is_str _ "equal"); [reflexivity|];
         destruct (is_str _ "exact"); [reflexivity|];
         destruct (is_str _ "percentage"); [reflexivity|discriminate]).
  exfalso. apply (Hn items). reflexivity.
Qed.

Lemma splits_not_an_array_is_server_error_witness :
  Expense.createExpense dinner
    (Expense.mk_body (VStr "G") (VStr "shared") (VNum (Fin 90)) (VStr "A")
                     (VStr "equal") (VStr "A,B"))
  = (internal_error, dinner).
Proof.
  apply (splits_not_an_array_is_server_error dinner
           (Expense.mk_body (VStr "G") (VStr "shared") (VNum (Fin 90)) (VStr "A")
                            (VStr "equal") (VStr "A,B")));
    [reflexivity|reflexivity|discriminate].
Defined.

(** A [null] among the participants of an exact or percentage split makes
    the sum throw when it reads the property: the reply is 500 and nothing
    is stored. *)
Theorem null_participant_is_server_error (d : Store.db) (b : Expense.body)
    (items : list value) :
  Expense.missing_field b = false ->
  Expense.split_type b = VStr "exact" \/ Expense.split_type b = VStr "percentage" ->
  Expense.splits b = VArr items ->
  In VNull items ->
  Expense.createExpense d b = (internal_error, d).
Proof.
  intros Hm Hk Hs Hin. unfold Expense.createExpense. rewrite Hm.
  assert (forall field sum, Expense.reduce_sum field items sum = None) as Hnone.
  { intros field. clear Hs. induction items as [|x l IH]; intros sum; [contradiction|].
    destruct Hin as [->|Hin]; [reflexivity|]. simpl.
    destruct (get x field); [apply IH, Hin|reflexivity]. }
  assert (Expense.calculate b = Expense.Thrown) as Hc.
  { unfold Expense.calculate. destruct Hk as [-> | ->]; rewrite Hs; simpl;
      rewrite Hnone; reflexivity. }
  rewrite Hc. destruct Hk as [-> | ->]; reflexivity.
Qed.

Lemma null_participant_is_server_error_witness :
  Expense.createExpense dinner
    (Expense.mk_body (VStr "G") (VStr "shared") (VNum (Fin 90)) (VStr "A")
       (VStr "exact")
       (VArr [VObj [("user_id", VStr "A"); ("amount", VNum (Fin 90))]; VNull]))
  = (internal_error, dinner).
Proof.
  apply (null_participant_is_server_error dinner
           (Expense.mk_body (VStr "G") (VStr "shared") (VNum (Fin 90)) (VStr "A")
              (VStr "exact")
              (VArr [VObj [("user_id", VStr "A"); ("amount", VNum (Fin 90))]; VNull]))
           [VObj [("user_id", VStr "A"); ("amount", VNum (Fin 90))]; VNull]);
    [reflexivity|left; reflexivity|reflexivity|right; left; reflexivity].
Defined.



(** ** [getGroupBalances]: the netting loop *)

Lemma one_edge_per_pair_without_dash_witness :
  let out := groupBalances (expenses_in trip_settled ["G"]) (settlements_in trip_settled ["G"]) in
  NoDup (map ends out)
  /\ (forall e1 e2, In e1 out -> In e2 out ->
        ~ (from_user e1 = to_user e2 /\ to_user e1 = from_user e2))
  /\ (forall e, In e out -> from_user e <> to_user e).
Proof.
  apply (one_edge_per_pair_without_dash
           (expenses_in trip_settled ["G"]) (settlements_in trip_settled ["G"]));
    repeat constructor.
Defined.

Lemma settlement_raises_payer_debt_witness :
  equiv (group_net [("B-A", Fin 30)] "B" "A") (Fin (30 - 0))
  /\ equiv (group_net (add_settlement [("B-A", Fin 30)]
                                      (Store.mk_settlement "G" "B" "A" (Fin 30))) "B" "A")
           (Fin (30 - 0 + 30)).
Proof.
  apply (settlement_raises_payer_debt [("B-A", Fin 30)]
           (Store.mk_settlement "G" "B" "A" (Fin 30)) 30 0 30);
    reflexivity || discriminate.
Defined.

Section Symmetry.

Lemma toFixed2_equiv (q q' : Q) : (q == q')%Q -> toFixed2 (Fin q) = toFixed2 (Fin q').
Proof.
  intros H. unfold toFixed2.
  assert (round_cents (Qabs q) = round_cents (Qabs q')) as ->.
  { unfold round_cents. apply Qfloor_comp. rewrite H. reflexivity. }
  destruct (Qlt_le_dec q 0) as [H1|H1]; destruct (Qlt_le_dec q' 0) as [H2|H2];
    try reflexivity; rewrite H in H1; lra.
Qed.

(** [y - x] against [x - y]: same magnitude, opposite sign. *)
Lemma sub_swap (x y : number) :
  gt (abs (sub y x)) cent = gt (abs (sub x y)) cent
  /\ toFixed2 (abs (sub y x)) = toFixed2 (abs (sub x y))
  /\ (gt (abs (sub x y)) cent = true -> gt (sub y x) zero = negb (gt (sub x y) zero)).
Proof.
  destruct x as [a| | |], y as [b| | |];
    try (split; [reflexivity|split; [reflexivity|intros H; (discriminate H || reflexivity)]]).
  unfold sub, neg, add, abs.
  assert (Qabs (b + - a) == Qabs (a + - b))%Q as Habs.
  { assert (b + - a == - (a + - b))%Q as -> by ring. apply Qabs_opp. }
  split; [|split].
  - unfold gt, cent. rewrite Habs. reflexivity.
  - apply toFixed2_equiv, Habs.
  - unfold gt, cent, zero. intros H.
    destruct (Qabs (a + - b) ?= 1 # 100)%Q eqn:E; try discriminate.
    apply Qgt_alt in E.
    assert (a + - b < - (1 # 100) \/ 1 # 100 < a + - b)%Q as Hcases.
    { destruct (Qlt_le_dec 0 (a + - b)) as [Hp|Hp].
      - rewrite Qabs_pos in E by lra. right. exact E.
      - rewrite Qabs_neg in E by exact Hp. left. lra. }
    destruct (b + - a ?= 0)%Q eqn:E1; destruct (a + - b ?= 0)%Q eqn:E2;
      try reflexivity; exfalso;
      first [apply Qeq_alt in E1 | apply Qlt_alt in E1 | apply Qgt_alt in E1];
      first [apply Qeq_alt in E2 | apply Qlt_alt in E2 | apply Qgt_alt in E2];
      destruct Hcases; lra.
Qed.

End Symmetry.

(** The netting of a pair does not depend on which of its two keys the
    loop meets: from any state, visiting the key of [a] and [b] or the key
    of [b] and [a] pushes the same edge (or none) and marks the same keys
    as processed.  For identifiers without ['-']. *)
Theorem netting_is_symmetric (balances : dict) (st : list edge * gset string)
    (a b : string) :
  dash_free a -> dash_free b ->
  visit balances st (make_key a b) = visit balances st (make_key b a).
Proof.
  intros Ha Hb. destruct st as [out processed]. unfold visit.
  rewrite (proj2 (endpoints_exact a b) (conj Ha Hb)).
  rewrite (proj2 (endpoints_exact b a) (conj Hb Ha)).
  destruct (bool_decide (make_key a b ∈ processed));
    destruct (bool_decide (make_key b a ∈ processed)); try reflexivity.
  cbn [orb].
  destruct (sub_swap (or0 (lookup balances (make_key a b)))
                     (or0 (lookup balances (make_key b a)))) as (Hgt & Hfix & Hdir).
  rewrite Hgt, Hfix.
  assert ({[make_key b a]} ∪ ({[make_key a b]} ∪ processed)
          = {[make_key a b]} ∪ ({[make_key b a]} ∪ processed)) as ->
      by (apply set_eq; intros x; rewrite !elem_of_union; tauto).
  destruct (gt (abs (sub (or0 (lookup balances (make_key a b)))
                         (or0 (lookup balances (make_key b a))))) cent) eqn:E;
    [|reflexivity].
  rewrite (Hdir eq_refl).
  destruct (gt (sub (or0 (lookup balances (make_key a b)))
                    (or0 (lookup balances (make_key b a)))) zero); reflexivity.
Qed.

Lemma netting_is_symmetric_witness :
  visit [("B-A", Fin 100); ("A-B", Fin 30)] ([], ∅) (make_key "A" "B")
  = visit [("B-A", Fin 100); ("A-B", Fin 30)] ([], ∅) (make_key "B" "A").
Proof.
  apply (netting_is_symmetric [("B-A", Fin 100); ("A-B", Fin 30)] ([], ∅) "A" "B");
    reflexivity.
Defined.

Example netting_pushes_one_edge :
  fst (visit [("B-A", Fin 100); ("A-B", Fin 30)] ([], ∅) (make_key "A" "B"))
  = [mk_edge "B" "A" "70.00"].
Proof. vm_compute. reflexivity. Qed.

Section Strangers.

Lemma linked_sym (expenses : list expense) (settlements : list Store.settlement)
    (a b : string) :
  linked expenses settlements a b -> linked expenses settlements b a.
Proof.
  intros [(e & s & He & Hs & H)|(s & Hs & H)]; [left|right].
  - exists e, s. repeat split; try assumption. tauto.
  - exists s. split; [assumption|tauto].
Qed.

Lemma all_keys_assign (P : string -> Prop) (o : dict) (key : string) (v : number) :
  all_keys P o -> P key -> all_keys P (assign o key v).
Proof.
  intros Ho Hk k Hin. apply keys_assign in Hin as [->|Hin]; [exact Hk|apply Ho, Hin].
Qed.

Lemma linked_keys_accumulate (expenses : list expense)
    (settlements : list Store.settlement) :
  Forall dash_free_expense expenses ->
  Forall dash_free_settlement settlements ->
  all_keys (linked_key expenses settlements) (accumulate expenses settlements).
Proof.
  intros He Hs. rewrite List.Forall_forall in He, Hs. unfold accumulate.
  apply fold_left_invariant.
  - apply fold_left_invariant; [intros k []|].
    intros st e Hin Hst. unfold add_expense. destruct (He e Hin) as [Hp Hsplits].
    rewrite List.Forall_forall in Hsplits.
    apply fold_left_invariant; [exact Hst|].
    intros st' s Hs' Hst'. unfold add_split.
    destruct (negb (String.eqb (user_id s) (paid_by e))); [|exact Hst'].
    apply all_keys_assign; [exact Hst'|].
    exists (user_id s), (paid_by e). repeat split; auto.
    left. exists e, s. auto.
  - intros st s Hin Hst. unfold add_settlement. destruct (Hs s Hin) as [Hby Hto].
    apply all_keys_assign; [exact Hst|].
    exists (Store.settlement_paid_to s), (Store.settlement_paid_by s).
    repeat split; auto. right. exists s. auto.
Qed.

Lemma visit_linked (expenses : list expense) (settlements : list Store.settlement)
    (balances : dict) (st : list edge * gset string) (key : string) :
  linked_key expenses settlements key ->
  Forall (fun e => linked expenses settlements (from_user e) (to_user e)) (fst st) ->
  Forall (fun e => linked expenses settlements (from_user e) (to_user e))
         (fst (visit balances st key)).
Proof.
  intros (a & b & -> & Ha & Hb & Hl) Hst. destruct st as [out processed].
  unfold visit. rewrite (proj2 (endpoints_exact a b) (conj Ha Hb)).
  destruct (_ || _)%bool; [exact Hst|].
  destruct (gt (abs _) cent); [|exact Hst].
  cbn [fst] in *. apply Forall_app. split; [exact Hst|].
  constructor; [|constructor]. cbn [from_user to_user].
  destruct (gt _ zero); [exact Hl|apply linked_sym, Hl].
Qed.

End Strangers.

(** No debt between strangers: for identifiers without ['-'], every edge
    that [getGroupBalances] reports joins two members between whom the
    ledger holds a split or a settlement. *)
Theorem no_edge_between_strangers (expenses : list expense)
    (settlements : list Store.settlement) :
  Forall dash_free_expense expenses ->
  Forall dash_free_settlement settlements ->
  Forall (fun e => linked expenses settlements (from_user e) (to_user e))
         (groupBalances expenses settlements).
Proof.
  intros He Hs. unfold groupBalances, simplify.
  pose proof (linked_keys_accumulate expenses settlements He Hs) as Hkeys.
  apply (fold_left_invariant
           (fun st => Forall (fun e => linked expenses settlements
                                         (from_user e) (to_user e)) (fst st))).
  - constructor.
  - intros st k Hk Hst. apply visit_linked; [apply Hkeys, Hk|exact Hst].
Qed.

Lemma no_edge_between_strangers_witness :
  Forall (fun e => linked (expenses_in trip_settled ["G"]) (settlements_in trip_settled ["G"])
                          (from_user e) (to_user e))
         (groupBalances (expenses_in trip_settled ["G"]) (settlements_in trip_settled ["G"])).
Proof.
  apply (no_edge_between_strangers
           (expenses_in trip_settled ["G"]) (settlements_in trip_settled ["G"]));
    repeat constructor.
Defined.

Section NoZero.

Lemma fixed2_zero (n : N) : fixed2 n = "0.00" -> n = 0%N.
Proof.
  intros H. pose proof (read_decimal_fixed2 n) as Hn. rewrite H in Hn.
  change (read_decimal "0.00") with (Some (cents 0)) in Hn.
  unfold cents in Hn. injection Hn. intros. lia.
Qed.

Lemma round_cents_positive (q : Q) : (1 # 100 < q)%Q -> (1 <= round_cents q)%Z.
Proof.
  intros H. unfold round_cents.
  assert (Qfloor 1 <= Qfloor (q * 100 + (1 # 2)))%Z as Hle
      by (apply Qfloor_resp_le; lra).
  exact Hle.
Qed.

Lemma printed_debt_not_zero (v : number) :
  gt (abs v) cent = true -> toFixed2 (abs v) <> "0.00".
Proof.
  destruct v as [q| | |]; try discriminate.
  intros H. unfold abs in *. unfold gt, cent in H.
  destruct (Qabs q ?= 1 # 100)%Q eqn:E; try discriminate. apply Qgt_alt in E.
  unfold toFixed2. pose proof (Qabs_nonneg q) as Hn.
  destruct (Qlt_le_dec (Qabs q) 0) as [Hlt|_]; [lra|].
  intros Hz. apply fixed2_zero in Hz.
  assert (round_cents (Qabs (Qabs q)) = round_cents (Qabs q)) as Hr.
  { unfold round_cents. apply Qfloor_comp. rewrite (Qabs_pos (Qabs q)) by exact Hn.
    reflexivity. }
  rewrite Hr in Hz. pose proof (round_cents_positive (Qabs q) E). lia.
Qed.

Lemma printed_credit_not_zero (v : number) :
  gt (abs v) cent = true -> gt v zero = true -> toFixed2 v <> "0.00".
Proof.
  intros Ha Hp. destruct v as [q| | |]; try discriminate.
  assert (toFixed2 (Fin q) = toFixed2 (abs (Fin q))) as ->.
  { unfold abs. apply toFixed2_equiv. unfold gt, zero in Hp.
    destruct (q ?= 0)%Q eqn:E; try discriminate. apply Qgt_alt in E.
    rewrite Qabs_pos by lra. reflexivity. }
  apply printed_debt_not_zero, Ha.
Qed.

End NoZero.

(** No amount of ["0.00"] is ever listed: neither on an edge of
    [getGroupBalances] nor in [owes] or [owed] of [getUserBalances],
    whatever the ledger. *)
Theorem listed_amounts_are_never_zero (userId : string) (expenses : list expense)
    (settlements : list Store.settlement) :
  Forall (fun e => amount e <> "0.00") (groupBalances expenses settlements)
  /\ Forall (fun i : entry => snd i <> "0.00")
            (fst (userBalances userId expenses settlements))
  /\ Forall (fun i : entry => snd i <> "0.00")
            (snd (userBalances userId expenses settlements)).
Proof.
  split.
  - unfold groupBalances, simplify.
    apply (fold_left_invariant (fun st => Forall (fun e => amount e <> "0.00") (fst st)));
      [constructor|].
    intros [out processed] k _ Hst. unfold visit.
    destruct (endpoints k) as [f t].
    destruct (_ || _)%bool; [exact Hst|].
    destruct (gt (abs _) cent) eqn:E; [|exact Hst].
    cbn [fst] in *. apply Forall_app. split; [exact Hst|].
    constructor; [|constructor]. cbn [amount]. apply printed_debt_not_zero, E.
  - unfold userBalances, partition_balances.
    apply (fold_left_invariant
             (fun st : list entry * list entry =>
                Forall (fun i : entry => snd i <> "0.00") (fst st)
                /\ Forall (fun i : entry => snd i <> "0.00") (snd st)));
      [split; constructor|].
    intros [owes owed] [other v] _ [H1 H2]. unfold classify.
    destruct (gt (abs v) cent) eqn:E; [|split; assumption].
    destruct (gt v zero) eqn:Ep; cbn [fst snd]; split; try assumption;
      apply Forall_app; (split; [assumption|]); constructor; try constructor;
      cbn [snd].
    + apply printed_credit_not_zero; assumption.
    + apply printed_debt_not_zero, E.
Qed.

(** ** [getUserBalances]: the lists [owes] and [owed] *)


Lemma getUserBalances_no_group_witness :
  getUserBalances (fun s => Nat.eqb (String.length s) 36) dinner_uuid alice_uuid
  = Reply 200 (mk_user_balances [] [] "0.00" "0.00").
Proof.
  apply (getUserBalances_no_group (fun s => Nat.eqb (String.length s) 36)
           dinner_uuid alice_uuid).
  - reflexivity.
  - intros m [].
Defined.

Lemma keys_assign_nodup (o : dict) (key : string) (v : number) :
  NoDup (keys o) -> NoDup (keys (assign o key v)).
Proof.
  unfold keys. induction o as [|[k w] o IH]; simpl; intros H.
  - repeat constructor. intros Hin. inversion Hin.
  - inversion H as [|? ? Hk Ho]; subst.
    destruct (String.eqb_spec key k) as [->|Hne]; simpl.
    + constructor; assumption.
    + constructor; [|apply IH, Ho].
      intros Hin. apply list_elem_of_In in Hin.
      apply (keys_assign o key v k) in Hin as [->|Hin]; [congruence|].
      apply Hk, list_elem_of_In, Hin.
Qed.

Lemma accumulate_for_nodup (userId : string) (expenses : list expense)
    (settlements : list Store.settlement) :
  NoDup (keys (accumulate_for userId expenses settlements)).
Proof.
  unfold accumulate_for.
  apply fold_left_invariant.
  - apply fold_left_invariant; [constructor|].
    intros st e _ Hst. unfold add_expense_for.
    apply fold_left_invariant; [exact Hst|].
    intros st' s _ Hst'. unfold add_split_for.
    destruct (_ && _)%bool; [apply keys_assign_nodup, Hst'|].
    destruct (_ && _)%bool; [apply keys_assign_nodup, Hst'|exact Hst'].
  - intros st s _ Hst. unfold add_settlement_for.
    destruct (String.eqb _ userId); [apply keys_assign_nodup, Hst|].
    destruct (String.eqb _ userId); [apply keys_assign_nodup, Hst|exact Hst].
Qed.

Lemma partition_keys (l : list (string * number)) (owes owed : list entry) :
  NoDup ((map fst owes ++ map fst owed) ++ map fst l) ->
  let '(owes', owed') := fold_left classify l (owes, owed) in
  NoDup (map fst owes' ++ map fst owed')
  /\ (forall k, In k (map fst owes' ++ map fst owed') ->
        In k (map fst owes ++ map fst owed) \/ In k (map fst l)).
Proof.
  revert owes owed. induction l as [|[k v] l IH]; intros owes owed H.
  - simpl. simpl in H. rewrite app_nil_r in H. split; [exact H|]. intros k Hk. left. exact Hk.
  - cbn [fold_left map fst] in *. unfold classify at 2.
    assert (NoDup ((map fst owes ++ map fst owed) ++ map fst l)) as Hskip.
    { apply NoDup_app in H as (H1 & H2 & H3). apply NoDup_app. split; [exact H1|].
      split; [|inversion H3; assumption].
      intros x Hx Hx'. apply (H2 x Hx). right. exact Hx'. }
    assert (NoDup (((map fst owes ++ [k]) ++ map fst owed) ++ map fst l)
            /\ NoDup ((map fst owes ++ map fst owed ++ [k]) ++ map fst l)) as [Ho Hd].
    { assert (Permutation ((map fst owes ++ map fst owed) ++ k :: map fst l)
                          (((map fst owes ++ [k]) ++ map fst owed) ++ map fst l)) as P1.
      { rewrite <- !app_assoc. apply Permutation_app_head. simpl.
        rewrite (Permutation_middle (map fst owed) (map fst l) k). reflexivity. }
      assert (Permutation ((map fst owes ++ map fst owed) ++ k :: map fst l)
                          ((map fst owes ++ map fst owed ++ [k]) ++ map fst l)) as P2.
      { rewrite <- !app_assoc. simpl. reflexivity. }
      split; [rewrite <- P1|rewrite <- P2]; exact H. }
    destruct (gt (abs v) cent).
    + destruct (gt v zero).
      * specialize (IH (owes ++ [(k, toFixed2 v)])%list owed).
        rewrite map_app in IH. simpl in IH. specialize (IH Ho).
        destruct (fold_left classify l _) as [owes' owed'].
        destruct IH as [Hn Hsub]. split; [exact Hn|].
        intros x Hx. destruct (Hsub x Hx) as [Hin|Hin]; [|right; right; exact Hin].
        rewrite !in_app_iff in Hin. rewrite in_app_iff. simpl in Hin. simpl. tauto.
      * specialize (IH owes (owed ++ [(k, toFixed2 (abs v))])%list).
        rewrite map_app in IH. simpl in IH. specialize (IH Hd).
        destruct (fold_left classify l _) as [owes' owed'].
        destruct IH as [Hn Hsub]. split; [exact Hn|].
        intros x Hx. destruct (Hsub x Hx) as [Hin|Hin]; [|right; right; exact Hin].
        rewrite !in_app_iff in Hin. rewrite in_app_iff. simpl in Hin. simpl. tauto.
    + specialize (IH owes owed Hskip).
      destruct (fold_left classify l _) as [owes' owed'].
      destruct IH as [Hn Hsub]. split; [exact Hn|].
      intros x Hx. destruct (Hsub x Hx) as [Hin|Hin]; [left; exact Hin|right; right; exact Hin].
Qed.

(** In the reply of [getUserBalances] a counterparty is listed at most
    once: never twice in [owes], never twice in [owed], and never in both,
    whatever the ledger. *)
Theorem counterparty_listed_once (userId : string) (expenses : list expense)
    (settlements : list Store.settlement) :
  NoDup (map fst (fst (userBalances userId expenses settlements))
         ++ map fst (snd (userBalances userId expenses settlements))).
Proof.
  unfold userBalances, partition_balances.
  pose proof (accumulate_for_nodup userId expenses settlements) as H.
  pose proof (partition_keys (accumulate_for userId expenses settlements) [] []) as P.
  simpl in P. specialize (P H).
  destruct (fold_left classify _ _) as [owes owed]. apply P.
Qed.

(** The queried user is never listed as their own counterparty, provided
    no settlement has the same payer and payee (the CHECK of the table). *)
Theorem user_is_not_own_counterparty (userId : string) (expenses : list expense)
    (settlements : list Store.settlement) :
  Forall (fun s => Store.settlement_paid_by s <> Store.settlement_paid_to s) settlements ->
  Forall (fun k => k <> userId)
         (map fst (fst (userBalances userId expenses settlements))
          ++ map fst (snd (userBalances userId expenses settlements))).
Proof.
  intros Hs. rewrite List.Forall_forall in Hs.
  assert (all_keys (fun k => k <> userId) (accumulate_for userId expenses settlements))
    as Hkeys.
  { unfold accumulate_for. apply fold_left_invariant.
    - apply fold_left_invariant; [intros k []|].
      intros st e _ Hst. unfold add_expense_for.
      apply fold_left_invariant; [exact Hst|].
      intros st' s _ Hst'. unfold add_split_for.
      destruct (String.eqb_spec (user_id s) userId) as [E1|E1];
        destruct (String.eqb_spec (paid_by e) userId) as [E2|E2]; simpl;
        try exact Hst'; apply all_keys_assign; assumption.
    - intros st s Hin Hst. unfold add_settlement_for. specialize (Hs s Hin).
      destruct (String.eqb_spec (Store.settlement_paid_by s) userId) as [E1|E1].
      + apply all_keys_assign; [exact Hst|]. congruence.
      + destruct (String.eqb_spec (Store.settlement_paid_to s) userId) as [E2|E2];
          [|exact Hst].
        apply all_keys_assign; assumption. }
  unfold userBalances, partition_balances.
  pose proof (accumulate_for_nodup userId expenses settlements) as H.
  pose proof (partition_keys (accumulate_for userId expenses settlements) [] []) as P.
  simpl in P. specialize (P H).
  destruct (fold_left classify _ _) as [owes owed]. destruct P as [_ Hsub].
  apply List.Forall_forall. intros k Hk. cbn [fst snd] in Hk.
  destruct (Hsub k Hk) as [[]|Hin]. apply Hkeys, Hin.
Qed.

Lemma user_is_not_own_counterparty_witness :
  Forall (fun k => k <> "A")
         (map fst (fst (userBalances "A" (expenses_in trip_settled ["G"])
                                     (settlements_in trip_settled ["G"])))
          ++ map fst (snd (userBalances "A" (expenses_in trip_settled ["G"])
                                        (settlements_in trip_settled ["G"])))).
Proof.
  apply (user_is_not_own_counterparty "A" (expenses_in trip_settled ["G"])
           (settlements_in trip_settled ["G"])).
  repeat constructor. discriminate.
Defined.

(** ** [getUserBalances]: the totals *)

Lemma lookup_finite (o : dict) (key : string) :
  finite_values o -> exists q, or0 (lookup o key) = Fin q.
Proof.
  unfold lookup. induction o as [|[k w] o IH]; intros H; simpl.
  - exists 0%Q. reflexivity.
  - inversion H as [|? ? [q Hq] Ho]; subst. simpl in Hq. subst w.
    destruct (String.eqb key k).
    + destruct (or0_finite q) as (q' & -> & _). exists q'. reflexivity.
    + apply IH, Ho.
Qed.

Lemma assign_finite (o : dict) (key : string) (q : Q) :
  finite_values o -> finite_values (assign o key (Fin q)).
Proof.
  unfold finite_values. induction o as [|[k w] o IH]; intros H; simpl.
  - repeat constructor. exists q. reflexivity.
  - inversion H as [|? ? Hw Ho]; subst. destruct (String.eqb key k).
    + constructor; [exists q; reflexivity|exact Ho].
    + constructor; [exact Hw|apply IH, Ho].
Qed.

Lemma accumulate_for_finite (userId : string) (expenses : list expense)
    (settlements : list Store.settlement) :
  Forall finite_expense expenses -> Forall finite_settlement settlements ->
  finite_values (accumulate_for userId expenses settlements).
Proof.
  intros He Hs. rewrite List.Forall_forall in He, Hs.
  unfold accumulate_for. apply fold_left_invariant.
  - apply fold_left_invariant; [constructor|].
    intros st e Hin Hst. unfold add_expense_for.
    specialize (He e Hin). unfold finite_expense in He.
    rewrite List.Forall_forall in He.
    apply fold_left_invariant; [exact Hst|].
    intros st' s Hs' Hst'. destruct (He s Hs') as [m Hm].
    unfold add_split_for. rewrite Hm.
    destruct (_ && _)%bool.
    { destruct (lookup_finite st' (paid_by e) Hst') as [q ->]. apply assign_finite, Hst'. }
    destruct (_ && _)%bool; [|exact Hst'].
    destruct (lookup_finite st' (user_id s) Hst') as [q ->]. apply assign_finite, Hst'.
  - intros st s Hin Hst. destruct (Hs s Hin) as [a Ha].
    unfold add_settlement_for. rewrite Ha.
    destruct (String.eqb _ userId).
    { destruct (lookup_finite st (Store.settlement_paid_to s) Hst) as [q ->].
      apply assign_finite, Hst. }
    destruct (String.eqb _ userId); [|exact Hst].
    destruct (lookup_finite st (Store.settlement_paid_by s) Hst) as [q ->].
    apply assign_finite, Hst.
Qed.

Lemma toFixed2_nonneg (q : Q) :
  (0 <= q)%Q -> toFixed2 (Fin q) = fixed2 (Z.to_N (round_cents (Qabs q))).
Proof.
  intros H. unfold toFixed2. destruct (Qlt_le_dec q 0) as [Hn|_]; [lra|reflexivity].
Qed.

Lemma partition_amounts (l : dict) (owes owed : list entry) (ns ms : list N) :
  finite_values l ->
  map snd owes = map fixed2 ns -> map snd owed = map fixed2 ms ->
  exists ns' ms',
    map snd (fst (fold_left classify l (owes, owed))) = map fixed2 ns'
    /\ map snd (snd (fold_left classify l (owes, owed))) = map fixed2 ms'.
Proof.
  revert owes owed ns ms. induction l as [|[k v] l IH]; intros owes owed ns ms H Ho Hd.
  - exists ns, ms. split; assumption.
  - inversion H as [|? ? [q Hq] Hl]; subst. simpl in Hq. subst v.
    cbn [fold_left].
    remember (classify (owes, owed) (k, Fin q)) as c eqn:Hc. unfold classify in Hc.
    destruct (gt (abs (Fin q)) cent); [|subst c; apply (IH owes owed ns ms Hl Ho Hd)].
    destruct (gt (Fin q) zero) eqn:Hp; subst c.
    + apply (IH _ owed (ns ++ [Z.to_N (round_cents (Qabs q))])%list ms Hl); [|exact Hd].
      rewrite !map_app. f_equal; [exact Ho|]. cbn [map snd].
      rewrite toFixed2_nonneg; [reflexivity|].
      unfold gt, zero in Hp. destruct (q ?= 0)%Q eqn:E; try discriminate.
      apply Qgt_alt in E. lra.
    + apply (IH owes _ ns (ms ++ [Z.to_N (round_cents (Qabs (Qabs q)))])%list Hl Ho).
      rewrite !map_app. f_equal; [exact Hd|]. cbn [map snd abs].
      rewrite toFixed2_nonneg by apply Qabs_nonneg. reflexivity.
Qed.

Lemma parse_float_fixed2 (n : N) : parse_float (fixed2 n) = Fin (cents n).
Proof.
  rewrite <- toFixed2_cents, parse_float_toFixed2. cbv zeta.
  pose proof (cents_nonneg n) as H.
  destruct (Qlt_le_dec (cents n) 0) as [Hn|_]; [lra|].
  assert (round_cents (Qabs (cents n)) = Z.of_N n) as ->.
  { rewrite <- round_cents_of_cents. unfold round_cents. apply Qfloor_comp.
    rewrite Qabs_pos by exact H. reflexivity. }
  rewrite N2Z.id. reflexivity.
Qed.

Lemma cents_add (a b : N) : (cents (a + b) == cents a + cents b)%Q.
Proof.
  unfold cents. rewrite N2Z.inj_add, inject_Z_plus. ring.
Qed.

Lemma total_of_fixed (l : list entry) (ns : list N) :
  map snd l = map fixed2 ns -> total l = fixed2 (sum_N ns).
Proof.
  intros H. unfold total.
  assert (forall (l : list entry) (ns : list N) (acc : Q),
             map snd l = map fixed2 ns ->
             exists q, fold_left (fun s i => add s (parse_float (snd i))) l (Fin acc) = Fin q
                       /\ (q == acc + cents (sum_N ns))%Q) as G.
  { clear. induction l as [|[k a] l IH]; intros [|n ns] acc H; try discriminate.
    - exists acc. split; [reflexivity|]. simpl. unfold cents. simpl. ring.
    - simpl in H. injection H as Ha Hl. subst a. cbn [fold_left snd].
      rewrite parse_float_fixed2. cbn [add].
      destruct (IH ns (acc + cents n)%Q Hl) as (q & -> & Hq).
      exists q. split; [reflexivity|]. rewrite Hq. simpl. rewrite cents_add. ring. }
  destruct (G l ns 0%Q H) as (q & Hq & Hv). unfold zero. rewrite Hq.
  rewrite <- toFixed2_cents. apply toFixed2_equiv. rewrite Hv. ring.
Qed.

(** The totals of [getUserBalances] are the sums of the amounts it lists:
    when every stored amount is a finite number, each listed amount is a
    whole number of cents printed with two decimals, and [total_owes] and
    [total_owed] print the sums of those cents. *)
Theorem totals_are_sums_of_listed_amounts (userId : string) (expenses : list expense)
    (settlements : list Store.settlement) :
  Forall finite_expense expenses -> Forall finite_settlement settlements ->
  exists ns ms,
    map snd (fst (userBalances userId expenses settlements)) = map fixed2 ns
    /\ map snd (snd (userBalances userId expenses settlements)) = map fixed2 ms
    /\ total (fst (userBalances userId expenses settlements)) = fixed2 (sum_N ns)
    /\ total (snd (userBalances userId expenses settlements)) = fixed2 (sum_N ms).
Proof.
  intros He Hs. unfold userBalances, partition_balances.
  destruct (partition_amounts (accumulate_for userId expenses settlements) [] [] [] []
              (accumulate_for_finite userId expenses settlements He Hs)
              eq_refl eq_refl) as (ns & ms & Hn & Hm).
  exists ns, ms. repeat split; try assumption; apply total_of_fixed; assumption.
Qed.

Lemma totals_are_sums_of_listed_amounts_witness :
  exists ns ms,
    map snd (fst (userBalances "A" (expenses_in trip_settled ["G"])
                               (settlements_in trip_settled ["G"]))) = map fixed2 ns
    /\ map snd (snd (userBalances "A" (expenses_in trip_settled ["G"])
                                  (settlements_in trip_settled ["G"]))) = map fixed2 ms
    /\ total (fst (userBalances "A" (expenses_in trip_settled ["G"])
                                (settlements_in trip_settled ["G"]))) = fixed2 (sum_N ns)
    /\ total (snd (userBalances "A" (expenses_in trip_settled ["G"])
                                (settlements_in trip_settled ["G"]))) = fixed2 (sum_N ms).
Proof.
  apply (totals_are_sums_of_listed_amounts "A" (expenses_in trip_settled ["G"])
           (settlements_in trip_settled ["G"]));
    repeat (constructor; try (eexists; reflexivity)).
Defined.

(* ===================================================================== *)
(** * A settlement, from its creation to the balances *)
(* ===================================================================== *)

Lemma createSettlement_created (d d' : Store.db) (b : Settlement.body)
    (s : Store.settlement) :
  Settlement.createSettlement d b = (Reply 201 s, d') ->
  d' = with_settlement d s
  /\ Store.settlement_paid_by s <> Store.settlement_paid_to s
  /\ exists a, Store.settlement_amount s = Fin a /\ (0 < a)%Q.
Proof.
  unfold Settlement.createSettlement.
  destruct (Settlement.missing_field b); [discriminate|].
  destruct (Settlement.strict_eq _ _); [discriminate|].
  destruct (le _ zero); [discriminate|].
  unfold Store.insert_settlement. simpl.
  destruct (Store.to_text (Settlement.group_id b)) as [g|]; [|discriminate].
  destruct (Store.to_text (Settlement.paid_by b)) as [p|]; [|discriminate].
  destruct (Store.to_text (Settlement.paid_to b)) as [t|]; [|discriminate].
  destruct (Store.to_numeric _) as [a|]; [|discriminate]. simpl.
  destruct (Store.positive a) eqn:Hpos; [|discriminate].
  destruct (String.eqb_spec p t) as [E|E]; [discriminate|]. simpl.
  intros H. injection H as <- <-. simpl. repeat split; try assumption.
  exists a. split; [reflexivity|].
  unfold Store.positive in Hpos. destruct (a ?= 0)%Q eqn:C; try discriminate.
  apply Qgt_alt in C. exact C.
Qed.

Lemma settlements_in_with_settlement (d : Store.db) (s : Store.settlement)
    (groupIds : list string) :
  In (Store.settlement_group_id s) groupIds ->
  settlements_in (with_settlement d s) groupIds = (settlements_in d groupIds ++ [s])%list.
Proof.
  intros Hin. unfold settlements_in, with_settlement. simpl.
  rewrite List.filter_app. simpl.
  assert (existsb (String.eqb (Store.settlement_group_id s)) groupIds = true) as ->;
    [|reflexivity].
  apply existsb_exists. exists (Store.settlement_group_id s).
  split; [exact Hin|apply String.eqb_refl].
Qed.



(** In the user scope the payment is subtracted on both sides: after
    [createSettlement] has stored a payment of [a] from [p] to [q], the
    balance of [p] toward [q] and the balance of [q] toward [p] are both
    [a] lower than before, so the payee's view moves away from the
    payer's. *)
Theorem recorded_settlement_lowers_both_views (d d' : Store.db) (b : Settlement.body)
    (s : Store.settlement) (groupIds : list string) (x y a : Q) :
  let p := Store.settlement_paid_by s in
  let q := Store.settlement_paid_to s in
  let view userId d := accumulate_for userId (expenses_in d groupIds)
                                      (settlements_in d groupIds) in
  Settlement.createSettlement d b = (Reply 201 s, d') ->
  In (Store.settlement_group_id s) groupIds ->
  Store.settlement_amount s = Fin a ->
  running (view p d) q = Fin x ->
  running (view q d) p = Fin y ->
  lookup (view p d') q = Some (Fin (x + - a))
  /\ lookup (view q d') p = Some (Fin (y + - a)).
Proof.
  intros p q view H Hin Ha Hx Hy.
  apply createSettlement_created in H as (-> & Hpq & _).
  assert (forall userId, view userId (with_settlement d s)
                         = add_settlement_for userId (view userId d) s) as Hview.
  { intros userId. unfold view. rewrite (settlements_in_with_settlement d s groupIds Hin).
    unfold accumulate_for. rewrite fold_left_app. reflexivity. }
  rewrite !Hview. split.
  - unfold add_settlement_for. fold p q. rewrite String.eqb_refl, lookup_assign_same.
    unfold running in Hx. rewrite Hx, Ha. reflexivity.
  - apply payee_settlement_subtracts; try assumption; reflexivity.
Qed.

Lemma recorded_settlement_lowers_both_views_witness :
  let view userId d := accumulate_for userId (expenses_in d ["G"])
                                      (settlements_in d ["G"]) in
  lookup (view "B" dinner_settled) "A" = Some (Fin ((3000 # 100) + - 30))
  /\ lookup (view "A" dinner_settled) "B" = Some (Fin ((-3000 # 100) + - 30)).
Proof.
  apply (recorded_settlement_lowers_both_views dinner dinner_settled
           (payment "G" "B" "A" 30)
           (Store.mk_settlement "G" "B" "A" (Fin (inject_Z 30))) ["G"]
           (3000 # 100) (-3000 # 100) 30);
    try reflexivity.
  left. reflexivity.
Defined.

(** ** The two users' views without settlements *)

Lemma add_split_mirrored (a b payer : string) (ua ub : dict) (s : split) :
  a <> b ->
  (exists m, split_amount s = Fin m) ->
  mirrored a b ua ub ->
  mirrored a b (add_split_for a payer ua s) (add_split_for b payer ub s).
Proof.
  intros Hab [m Hm] (z & z' & Hz & Hz' & E).
  unfold add_split_for. rewrite Hm.
  destruct (String.eqb_spec (user_id s) a) as [Hsa|Hsa];
    destruct (String.eqb_spec payer a) as [Hpa|Hpa];
    destruct (String.eqb_spec (user_id s) b) as [Hsb|Hsb];
    destruct (String.eqb_spec payer b) as [Hpb|Hpb]; simpl;
    try congruence;
    try (exists z, z'; repeat split; try assumption;
         rewrite ?lookup_assign_other by congruence; assumption);
    unfold mirrored.
  - (* a owes the payer b *)
    rewrite Hsa, Hpb, Hz, Hz'. simpl. rewrite !lookup_assign_same.
    destruct (or0_finite (z + m)) as (v & -> & Ev).
    destruct (or0_finite (z' + - m)) as (v' & -> & Ev').
    exists v, v'. repeat split. rewrite Ev, Ev', E. ring.
  - (* b owes the payer a *)
    rewrite Hsb, Hpa, Hz, Hz'. simpl. rewrite !lookup_assign_same.
    destruct (or0_finite (z + - m)) as (v & -> & Ev).
    destruct (or0_finite (z' + m)) as (v' & -> & Ev').
    exists v, v'. repeat split. rewrite Ev, Ev', E. ring.
Qed.

(** Without settlements the views of two users mirror each other: the
    balance of [a] toward [b] in [getUserBalances] is the opposite of the
    balance of [b] toward [a], for any ledger of finite amounts. *)
Theorem user_views_mirror_without_settlements (expenses : list expense) (a b : string) :
  Forall finite_expense expenses ->
  a <> b ->
  equiv (running (accumulate_for a expenses []) b)
        (neg (running (accumulate_for b expenses []) a)).
Proof.
  intros Hf Hab. unfold accumulate_for. simpl.
  assert (mirrored a b (fold_left (add_expense_for a) expenses [])
                       (fold_left (add_expense_for b) expenses [])) as H.
  { assert (mirrored a b [] []) as H0.
    { exists 0%Q, 0%Q. repeat split. }
    revert H0. generalize (@nil (string * number)) at 1 3.
    generalize (@nil (string * number)).
    induction expenses as [|e l IH]; intros ub ua H0; simpl; [exact H0|].
    inversion Hf as [|? ? He Hl]; subst. apply IH; [exact Hl|].
    unfold add_expense_for. unfold finite_expense in He. clear -He H0 Hab.
    revert ua ub H0. induction (expense_splits e) as [|s ss IHs]; intros ua ub H0; simpl;
      [exact H0|].
    inversion He; subst. apply IHs; [assumption|].
    apply add_split_mirrored; assumption. }
  destruct H as (z & z' & Hz & Hz' & E). unfold running. rewrite Hz, Hz'. simpl.
  rewrite E. ring.
Qed.

Lemma user_views_mirror_without_settlements_witness :
  equiv (running (accumulate_for "B" (expenses_in trip ["G"]) []) "A")
        (neg (running (accumulate_for "A" (expenses_in trip ["G"]) []) "B")).
Proof.
  apply (user_views_mirror_without_settlements (expenses_in trip ["G"]) "B" "A");
    [repeat (constructor; try (eexists; reflexivity))|discriminate].
Defined.

(* ===================================================================== *)
(** * Users and groups *)
(* ===================================================================== *)

Section DirectoryProperties.

Import Directory.

Variable uuid_of : value -> option string.
Variable text_of : value -> string.
Variable length_positive : list (string * value) -> bool.

Local Abbreviation uuid_column := (Directory.uuid_column uuid_of).
Local Abbreviation text_column := (Directory.text_column text_of).
Local Abbreviation insert_member := (Directory.insert_member uuid_of).
Local Abbreviation insert_members := (Directory.insert_members uuid_of).
Local Abbreviation insert_group := (Directory.insert_group uuid_of text_of).
Local Abbreviation insert_user := (Directory.insert_user text_of).
Local Abbreviation createUser := (Directory.createUser text_of).
Local Abbreviation getUserById := (Directory.getUserById uuid_of).
Local Abbreviation createGroup := (Directory.createGroup uuid_of text_of length_positive).
Local Abbreviation member_rows := (Directory.member_rows length_positive).
Local Abbreviation has_members := (Directory.has_members length_positive).
Local Abbreviation getUserGroups := (Directory.getUserGroups uuid_of).
Local Abbreviation getGroupById := (Directory.getGroupById uuid_of).
Local Abbreviation addGroupMember := (Directory.addGroupMember uuid_of).

Lemma uuid_column_read (v : value) (u : string) :
  uuid_column v = Some u -> uuid_of v = Some u.
Proof. destruct v; simpl; intros H; try discriminate; exact H. Qed.

Lemma insert_member_stored (w w1 : world) (gv uv : value) (m : Store.group_member) :
  insert_member w gv uv = Stored m w1 ->
  uuid_column gv = Some (Store.member_group_id m)
  /\ uuid_column uv = Some (Store.member_user_id m)
  /\ w1 = with_member w m
  /\ has_member w (Store.member_group_id m) (Store.member_user_id m) = false
  /\ has_group w (Store.member_group_id m) = true
  /\ has_user w (Store.member_user_id m) = true.
Proof.
  unfold Directory.insert_member.
  destruct (uuid_column gv) as [g|]; [|discriminate].
  destruct (uuid_column uv) as [u|]; [|discriminate].
  destruct (has_member w g u) eqn:Hm; [discriminate|].
  destruct (has_group w g) eqn:Hg; [|discriminate].
  destruct (has_user w u) eqn:Hu; [|discriminate].
  simpl. intros H. injection H as <- <-. simpl. repeat split; assumption.
Qed.

Lemma insert_members_stored (rows : list (value * value)) (w w2 : world) :
  insert_members w rows = Some w2 ->
  exists ms,
    w2 = with_members w ms
    /\ Forall2 (fun r m => uuid_column (fst r) = Some (Store.member_group_id m)
                           /\ uuid_column (snd r) = Some (Store.member_user_id m)
                           /\ has_user w (Store.member_user_id m) = true)
               rows ms.
Proof.
  revert w. induction rows as [|[gv uv] rows IH]; intros w H; simpl in H.
  - injection H as <-. exists []. split; [reflexivity|constructor].
  - destruct (insert_member w gv uv) as [m w1|] eqn:E; [|discriminate].
    apply insert_member_stored in E as (Hg & Hu & -> & _ & _ & Hhas).
    destruct (IH _ H) as (ms & -> & Hall).
    exists (m :: ms). split; [reflexivity|]. constructor.
    + repeat split; assumption.
    + eapply Forall2_impl; [exact Hall|]. intros r m' (A & B & C).
      repeat split; assumption.
Qed.

Lemma members_with_members (w : world) (ms : list Store.group_member) :
  members (with_members w ms) = (members w ++ ms)%list
  /\ users (with_members w ms) = users w
  /\ groups (with_members w ms) = groups w.
Proof.
  unfold with_members. revert w. induction ms as [|m ms IH]; intros w; simpl.
  - rewrite app_nil_r. repeat split.
  - destruct (IH (with_member w m)) as (A & B & C). rewrite A, B, C.
    unfold members, users. simpl. rewrite <- app_assoc. repeat split.
Qed.

Lemma insert_group_stored (gid : string) (w w1 : world) (n t c : value) (g : group) :
  insert_group gid w n t c = Stored g w1 ->
  w1 = with_group w g
  /\ group_id_of g = gid
  /\ uuid_of c = Some (group_created_by g)
  /\ has_group w gid = false
  /\ has_user w (group_created_by g) = true.
Proof.
  unfold Directory.insert_group.
  destruct (text_column n) as [n'|]; [|discriminate].
  destruct (text_column t) as [t'|]; [|discriminate].
  destruct (uuid_column c) as [c'|] eqn:Hc; [|discriminate].
  destruct (has_group w gid) eqn:Hg; [discriminate|].
  destruct (has_user w c') eqn:Hu; [|discriminate].
  intros H. injection H as <- <-. simpl.
  repeat split; try assumption. apply uuid_column_read, Hc.
Qed.

Lemma createGroup_created (gid : string) (w w' : world) (b : group_body) (g : group) :
  createGroup gid w b = (Reply 201 g, w') ->
  exists rows ms,
    member_rows gid (created_by b) (member_ids b) = Some rows
    /\ w' = with_members (with_group w g) ms
    /\ group_id_of g = gid
    /\ uuid_of (created_by b) = Some (group_created_by g)
    /\ has_group w gid = false
    /\ has_user w (group_created_by g) = true
    /\ Forall2 (fun r m => uuid_column (fst r) = Some (Store.member_group_id m)
                           /\ uuid_column (snd r) = Some (Store.member_user_id m)
                           /\ has_user w (Store.member_user_id m) = true)
               rows ms.
Proof.
  unfold Directory.createGroup.
  destruct (_ || _)%bool; [discriminate|].
  destruct (insert_group gid w _ _ _) as [g1 w1|] eqn:Eg; [|discriminate].
  apply insert_group_stored in Eg as (-> & Hid & Hc & Hfresh & Hu).
  rewrite Hid.
  destruct (member_rows gid _ _) as [rows|] eqn:Er; [|discriminate].
  destruct (insert_members _ rows) as [w2|] eqn:Em; [|discriminate].
  intros H. injection H as <- <-.
  apply insert_members_stored in Em as (ms & -> & Hall).
  exists rows, ms. repeat split; assumption.
Qed.

Lemma listed_rows (gid : string) (w : world) (l : list value)
    (ms : list Store.group_member) :
  uuid_of (VStr gid) = Some gid ->
  Forall2 (fun r m => uuid_column (fst r) = Some (Store.member_group_id m)
                      /\ uuid_column (snd r) = Some (Store.member_user_id m)
                      /\ has_user w (Store.member_user_id m) = true)
          (map (fun user_id => (VStr gid, user_id)) l) ms ->
  ms = map (Store.mk_member gid) (map Store.member_user_id ms)
  /\ Forall2 (fun v u => uuid_of v = Some u) l (map Store.member_user_id ms).
Proof.
  intros Hgid. revert ms. induction l as [|v l IH]; intros ms Hall; cbn [map] in Hall.
  - inversion Hall; subst. split; [reflexivity|constructor].
  - inversion Hall as [|? m ? ms' (Hg & Hu & _) Hrest]; subst. cbn [fst snd] in *.
    cbn in Hg. rewrite Hgid in Hg. injection Hg as Hg.
    destruct (IH ms' Hrest) as [E F]. cbn [map]. split.
    + rewrite <- E. destruct m as [mg mu]. simpl in *. subst mg. reflexivity.
    + constructor; [apply uuid_column_read, Hu|exact F].
Qed.

(** A group created with a list of members has exactly the listed users
    as members, one row each in the order of the list; the creator is a
    member only if the list names them. *)
Theorem listed_members_are_the_members (gid : string) (w w' : world) (b : group_body)
    (g : group) (first : value) (others : list value) :
  createGroup gid w b = (Reply 201 g, w') ->
  member_ids b = VArr (first :: others) ->
  uuid_of (VStr gid) = Some gid ->
  exists uids,
    Forall2 (fun v u => uuid_of v = Some u) (first :: others) uids
    /\ members w' = (members w ++ map (Store.mk_member gid) uids)%list
    /\ groups w' = (groups w ++ [g])%list
    /\ (has_member w' gid (group_created_by g) = true ->
        In (group_created_by g) uids \/ has_member w gid (group_created_by g) = true).
Proof.
  intros H Hm Hgid.
  apply createGroup_created in H
    as (rows & ms & Hr & -> & Hid & Hc & Hfresh & Hu & Hall).
  unfold Directory.member_rows in Hr. rewrite Hm in Hr.
  cbn [Directory.has_members length Nat.eqb negb] in Hr. injection Hr as <-.
  destruct (members_with_members (with_group w g) ms) as (A & _ & C).
  exists (map Store.member_user_id ms).
  destruct (listed_rows gid (with_group w g) (first :: others) ms Hgid Hall) as [Hms Hread].
  repeat split.
  - exact Hread.
  - rewrite A, <- Hms. reflexivity.
  - exact C.
  - unfold has_member. rewrite A, existsb_app. intros Hin.
    apply orb_true_iff in Hin as [Hin|Hin]; [right; exact Hin|left].
    apply existsb_exists in Hin as (m & Hin & Heq).
    apply andb_true_iff in Heq as [_ Heq]. apply String.eqb_eq in Heq.
    rewrite <- Heq. apply in_map, Hin.
Qed.

(** Without a list of members (none sent, or an empty one) the creator is
    the one member of the new group. *)
Theorem creator_is_the_default_member (gid : string) (w w' : world) (b : group_body)
    (g : group) :
  createGroup gid w b = (Reply 201 g, w') ->
  JS.falsy (member_ids b) = true \/ member_ids b = VArr [] ->
  uuid_of (VStr gid) = Some gid ->
  members w' = (members w ++ [Store.mk_member gid (group_created_by g)])%list
  /\ groups w' = (groups w ++ [g])%list
  /\ uuid_of (created_by b) = Some (group_created_by g).
Proof.
  intros H Hm Hgid.
  apply createGroup_created in H
    as (rows & ms & Hr & -> & Hid & Hc & Hfresh & Hu & Hall).
  assert (has_members (member_ids b) = false) as Hno.
  { destruct Hm as [Hm| ->]; [|reflexivity].
    destruct (member_ids b) as [| | | |s| |]; try reflexivity; try discriminate.
    unfold JS.falsy in Hm. simpl in *. destruct (String.eqb s ""); [reflexivity|discriminate]. }
  unfold Directory.member_rows in Hr. rewrite Hno in Hr. injection Hr as <-.
  inversion Hall as [|? m ? ms' (Hg & Hu' & _) Hrest]; subst.
  inversion Hrest; subst. cbn [fst snd] in *.
  cbn in Hg. rewrite Hgid in Hg. injection Hg as Hg.
  apply uuid_column_read in Hu'. rewrite Hc in Hu'. injection Hu' as Hu'.
  destruct (members_with_members (with_group w g) [m]) as (A & _ & C).
  rewrite A, C. destruct m as [mg mu]. simpl in *. subst.
  split; [reflexivity|]. split; [reflexivity|exact Hc].
Qed.

Lemma find_user_among (w : world) (uid : string) :
  has_user w uid = true ->
  exists u, Balance.find_user (store w) uid = Some u /\ Store.user_id_of u = uid.
Proof.
  unfold has_user, Balance.find_user, users.
  induction (Store.users (store w)) as [|u l IH]; simpl; [discriminate|].
  destruct (String.eqb_spec (Store.user_id_of u) uid) as [E|E]; simpl.
  - intros _. exists u. split; [reflexivity|exact E].
  - exact IH.
Qed.

Lemma find_group_kept (w : world) (g : group) (gid : string) :
  has_group w gid = true ->
  find_group (with_group w g) gid = find_group w gid.
Proof.
  unfold has_group, find_group, with_group. simpl.
  induction (groups w) as [|g0 l IH]; simpl; [discriminate|].
  destruct (String.eqb (group_id_of g0) gid); simpl; [reflexivity|exact IH].
Qed.

Lemma find_group_new (w : world) (g : group) :
  has_group w (group_id_of g) = false ->
  find_group (with_group w g) (group_id_of g) = Some g.
Proof.
  unfold has_group, find_group, with_group. simpl.
  induction (groups w) as [|g0 l IH]; simpl.
  - rewrite String.eqb_refl. reflexivity.
  - destruct (String.eqb (group_id_of g0) (group_id_of g)); simpl; [discriminate|exact IH].
Qed.

Lemma store_with_members (w : world) (ms : list Store.group_member) :
  Store.users (store (with_members w ms)) = Store.users (store w).
Proof. apply (members_with_members w ms). Qed.

Lemma find_group_with_members (w : world) (ms : list Store.group_member) (gid : string) :
  find_group (with_members w ms) gid = find_group w gid.
Proof.
  unfold find_group. destruct (members_with_members w ms) as (_ & _ & ->). reflexivity.
Qed.

Lemma joined_group_kept (w : world) (g : group) (ms : list Store.group_member)
    (gid : string) :
  has_group w gid = true ->
  joined_group (with_members (with_group w g) ms) gid = joined_group w gid.
Proof.
  intros H. unfold joined_group.
  rewrite find_group_with_members, (find_group_kept w g gid H).
  unfold Balance.find_user. rewrite store_with_members. reflexivity.
Qed.

Lemma listed_users (gv : value) (w : world) (l : list value)
    (ms : list Store.group_member) :
  Forall2 (fun r m => uuid_column (fst r) = Some (Store.member_group_id m)
                      /\ uuid_column (snd r) = Some (Store.member_user_id m)
                      /\ has_user w (Store.member_user_id m) = true)
          (map (fun user_id => (gv, user_id)) l) ms ->
  Forall2 (fun v u => uuid_of v = Some u) l (map Store.member_user_id ms).
Proof.
  revert ms. induction l as [|v l IH]; intros ms Hall; cbn [map] in Hall.
  - inversion Hall; subst. constructor.
  - inversion Hall as [|? m ? ms' (_ & Hu & _) Hrest]; subst. cbn [map snd] in *.
    constructor; [apply uuid_column_read, Hu|apply IH, Hrest].
Qed.

(** A creator whom the list of members leaves out does not find the new
    group among their groups: [getUserGroups] answers for them what it
    answered before the group was created. *)
Theorem unlisted_creator_does_not_see_the_group (gid : string) (w w' : world)
    (b : group_body) (g : group) (first : value) (others : list value)
    (userId : string) :
  createGroup gid w b = (Reply 201 g, w') ->
  member_ids b = VArr (first :: others) ->
  Forall (fun v => uuid_of v <> Some (group_created_by g)) (first :: others) ->
  uuid_of (VStr userId) = Some (group_created_by g) ->
  members_in_groups w ->
  getUserGroups w' userId = getUserGroups w userId.
Proof.
  intros H Hm Hout Hid Hwf.
  apply createGroup_created in H
    as (rows & ms & Hr & -> & Hgid & Hc & Hfresh & Hu & Hall).
  unfold Directory.member_rows in Hr. rewrite Hm in Hr.
  cbn [Directory.has_members length Nat.eqb negb] in Hr. injection Hr as <-.
  unfold Directory.getUserGroups. cbn [Directory.uuid_column]. rewrite Hid. f_equal.
  destruct (members_with_members (with_group w g) ms) as (-> & _ & _).
  change (members (with_group w g)) with (members w).
  rewrite List.filter_app, map_app.
  assert (List.filter (fun m => String.eqb (Store.member_user_id m) (group_created_by g)) ms
          = []) as ->.
  { apply (listed_users (VStr gid) w (first :: others)) in Hall. clear -Hall Hout.
    remember (map Store.member_user_id ms) as uids eqn:H. revert ms H Hout.
    induction Hall as [|v u l us Hv Hrest IH]; intros ms H Hout.
    - destruct ms; [reflexivity|discriminate].
    - destruct ms as [|m ms]; [discriminate|]. injection H as Hm Hms. subst u.
      inversion Hout as [|? ? Hne Hl]; subst. cbn [List.filter].
      destruct (String.eqb_spec (Store.member_user_id m) (group_created_by g)) as [E|E].
      + exfalso. apply Hne. rewrite <- E. exact Hv.
      + apply (IH ms); [reflexivity|exact Hl]. }
  cbn [map]. rewrite app_nil_r.
  unfold members_in_groups in Hwf. rewrite List.Forall_forall in Hwf.
  apply map_ext_in. intros m Hin. apply List.filter_In in Hin as [Hin _].
  apply joined_group_kept, Hwf, Hin.
Qed.

Lemma truthy_text (v : value) : JS.truthy v = true -> exists s, text_column v = Some s.
Proof. destruct v; simpl; intros H; try discriminate; eauto. Qed.

Lemma truthy_uuid (v : value) : JS.truthy v = true -> uuid_column v = uuid_of v.
Proof. destruct v; simpl; intros H; try discriminate; reflexivity. Qed.

Lemma unknown_member_refused (gid : string) (w : world) (m : value) (l : list value) :
  In m l ->
  (forall u, uuid_of m = Some u -> has_user w u = false) ->
  forall w1, users w1 = users w ->
  insert_members w1 (map (fun user_id => (VStr gid, user_id)) l) = None.
Proof.
  intros Hin Hun. induction l as [|v l IH]; intros w1 Hw1; [contradiction|].
  cbn [map Directory.insert_members].
  destruct (insert_member w1 (VStr gid) v) as [m' w2|] eqn:E; [|reflexivity].
  apply insert_member_stored in E as (_ & Hu & -> & _ & _ & Hhas).
  destruct Hin as [->|Hin].
  - apply uuid_column_read in Hu. apply Hun in Hu.
    unfold has_user in Hhas, Hu. rewrite Hw1 in Hhas. congruence.
  - apply IH; [exact Hin|]. rewrite <- Hw1. reflexivity.
Qed.

(** The group is stored before its members and is not taken back: when
    the list of members names a value that is not the identifier of a
    user, the reply is the server error, yet the group stays in [groups],
    with no member at all. *)
Theorem unknown_member_leaves_group_without_members (gid : string) (w : world)
    (b : group_body) (creator : string) (l : list value) (m : value) :
  JS.truthy (name b) = true ->
  JS.truthy (created_by b) = true ->
  uuid_of (created_by b) = Some creator ->
  has_user w creator = true ->
  has_group w gid = false ->
  member_ids b = VArr l ->
  In m l ->
  (forall u, uuid_of m = Some u -> has_user w u = false) ->
  exists g,
    createGroup gid w b = (internal_error, with_group w g)
    /\ group_id_of g = gid /\ group_created_by g = creator
    /\ members (with_group w g) = members w.
Proof.
  intros Hn Hc Hcu Hu Hfresh Hm Hin Hun.
  unfold Directory.createGroup, JS.falsy. rewrite Hn, Hc. cbn [negb orb].
  unfold Directory.insert_group.
  destruct (truthy_text (name b) Hn) as [n ->].
  assert (exists t, text_column (if JS.truthy (description b) then description b
                                 else VStr "") = Some t) as [t ->].
  { destruct (JS.truthy (description b)) eqn:Hd; [apply truthy_text, Hd|].
    exists "". reflexivity. }
  rewrite (truthy_uuid _ Hc), Hcu, Hfresh, Hu.
  exists (mk_group gid n t creator). cbn [group_id_of].
  unfold Directory.member_rows. rewrite Hm.
  destruct l as [|v l]; [contradiction|].
  cbn [Directory.has_members length Nat.eqb negb].
  rewrite (unknown_member_refused gid w m (v :: l) Hin Hun) by reflexivity.
  repeat split.
Qed.

(** A user is added to a group once: the request that has just been
    answered with 201, sent again, is answered with 409 and stores
    nothing. *)
Theorem member_added_once (w w' : world) (groupId : string) (user_id : value)
    (m : Store.group_member) :
  addGroupMember w groupId user_id = (Reply 201 m, w') ->
  addGroupMember w' groupId user_id
  = (Failure 409 "User is already a member of this group", w').
Proof.
  unfold Directory.addGroupMember.
  destruct (JS.falsy user_id); [discriminate|].
  destruct (insert_member w (VStr groupId) user_id) as [m1 w1|[|]] eqn:E; try discriminate.
  intros H. injection H as <- <-.
  apply insert_member_stored in E as (Hg & Hu & -> & _ & _ & _).
  unfold Directory.insert_member. rewrite Hg, Hu.
  assert (has_member (with_member w m1) (Store.member_group_id m1)
                     (Store.member_user_id m1) = true) as ->; [|reflexivity].
  unfold has_member, members, with_member. simpl.
  rewrite existsb_app. simpl. rewrite !String.eqb_refl, orb_true_r. reflexivity.
Qed.

Lemma member_rows_group (gid : string) (c v : value) (rows : list (value * value)) :
  member_rows gid c v = Some rows -> Forall (fun r => fst r = VStr gid) rows.
Proof.
  unfold Directory.member_rows. destruct (has_members v).
  - destruct v; try discriminate. intros H. injection H as <-.
    induction items; constructor; [reflexivity|assumption].
  - intros H. injection H as <-. repeat constructor.
Qed.

(** A group that has just been created is found by its identifier, with
    the record of its creator and one user record for each member row
    added, in their order. *)
Theorem created_group_is_found (gid : string) (w w' : world) (b : group_body)
    (g : group) :
  createGroup gid w b = (Reply 201 g, w') ->
  uuid_of (VStr gid) = Some gid ->
  members_in_groups w ->
  exists creator us,
    getGroupById w' gid
    = Reply 200 (mk_group_details (mk_group_view g (Some creator)) (map Some us))
    /\ Store.user_id_of creator = group_created_by g
    /\ members w' = (members w
                     ++ map (fun u => Store.mk_member gid (Store.user_id_of u)) us)%list.
Proof.
  intros H Hgid Hwf.
  apply createGroup_created in H
    as (rows & ms & Hr & -> & Hid & Hc & Hfresh & Hu & Hall).
  destruct (find_user_among w _ Hu) as (creator & Hfind & Hcid).
  apply member_rows_group in Hr.
  assert (exists us,
             map (fun m => Balance.find_user (store w) (Store.member_user_id m)) ms
             = map Some us
             /\ ms = map (fun u => Store.mk_member gid (Store.user_id_of u)) us)
    as (us & Hus & Hms).
  { clear -Hall Hgid Hr. revert ms Hall.
    induction rows as [|r rows IH]; intros ms Hall.
    - inversion Hall; subst. exists []. split; reflexivity.
    - inversion Hall as [|? m ? ms' (Hg & _ & Hhas) Hrest]; subst.
      inversion Hr as [|? ? Hfst Hr']; subst.
      destruct (IH Hr' ms' Hrest) as (us & E1 & E2).
      destruct (find_user_among w _ Hhas) as (u & Hfu & Huid).
      exists (u :: us). cbn [map]. rewrite Hfu, E1, <- E2, Huid. split; [reflexivity|].
      f_equal. rewrite Hfst in Hg. cbn in Hg. rewrite Hgid in Hg. injection Hg as Hg.
      destruct m as [mg mu]. simpl in *. subst mg. reflexivity. }
  exists creator, us.
  destruct (members_with_members (with_group w g) ms) as (Hmem & _ & _).
  change (members (with_group w g)) with (members w) in Hmem.
  split; [|split; [exact Hcid|rewrite Hmem, <- Hms; reflexivity]].
  unfold Directory.getGroupById. cbn [Directory.uuid_column]. rewrite Hgid.
  unfold joined_group. rewrite find_group_with_members.
  rewrite <- Hid at 1. rewrite find_group_new by (rewrite Hid; exact Hfresh).
  unfold Balance.find_user at 1. rewrite store_with_members.
  change (Store.users (store (with_group w g))) with (Store.users (store w)).
  fold (Balance.find_user (store w) (group_created_by g)). rewrite Hfind.
  do 2 f_equal. rewrite Hmem, List.filter_app, map_app.
  assert (List.filter (fun m => String.eqb (Store.member_group_id m) gid) (members w) = [])
    as ->.
  { unfold members_in_groups in Hwf. clear -Hwf Hfresh.
    induction Hwf as [|m l Hm _ IH]; [reflexivity|]. cbn [List.filter].
    destruct (String.eqb_spec (Store.member_group_id m) gid) as [E|E]; [|exact IH].
    rewrite E in Hm. congruence. }
  assert (List.filter (fun m => String.eqb (Store.member_group_id m) gid) ms = ms) as ->.
  { rewrite Hms. clear. induction us as [|u us IH]; [reflexivity|].
    cbn [map List.filter Store.member_group_id]. rewrite String.eqb_refl, IH. reflexivity. }
  cbn [app]. rewrite <- Hus. apply map_ext. intros m.
  unfold Balance.find_user. rewrite store_with_members. reflexivity.
Qed.

(** A user is registered once per address: after a 201, a request with
    the same address is answered with 409 and stores nothing, whatever
    identifier the database would draw. *)
Theorem email_registered_once (uid uid' : string) (w w' : world) (b b' : user_body)
    (u : Store.user) :
  createUser uid w b = (Reply 201 u, w') ->
  email b' = email b ->
  JS.truthy (user_name b') = true ->
  createUser uid' w' b' = (Failure 409 "User with this email already exists", w').
Proof.
  unfold Directory.createUser. intros H He Hn. rewrite He.
  destruct (JS.falsy (email b)) eqn:Hf; [discriminate|].
  destruct (JS.falsy (user_name b)); [discriminate|]. cbn [orb] in *.
  unfold JS.falsy. rewrite Hn. cbn [negb].
  unfold Directory.insert_user in *.
  destruct (truthy_text (user_name b') Hn) as [n' ->].
  destruct (text_column (email b)) as [e|]; [|discriminate].
  destruct (text_column (user_name b)) as [n|]; [|discriminate].
  destruct (existsb _ (users w)); [discriminate|].
  injection H as <- <-.
  assert (existsb (fun u => (String.eqb (Store.user_id_of u) uid'
                             || String.eqb (Store.user_email u) e)%bool)
                  (users (with_user w (Store.mk_user uid n e))) = true) as ->;
    [|reflexivity].
  unfold users, with_user. simpl. rewrite existsb_app. simpl.
  rewrite String.eqb_refl, !orb_true_r. reflexivity.
Qed.

(** A user that has just been created is found by its identifier: it is
    the record of the reply, with the name and the address sent. *)
Theorem created_user_is_found (uid : string) (w w' : world) (name address : string)
    (u : Store.user) :
  createUser uid w (mk_user_body (VStr address) (VStr name)) = (Reply 201 u, w') ->
  uuid_of (VStr uid) = Some uid ->
  getUserById w' uid = Reply 200 u
  /\ u = Store.mk_user uid name address.
Proof.
  unfold Directory.createUser. intros H Hid. cbn [email user_name] in H.
  destruct (_ || _)%bool; [discriminate|].
  unfold Directory.insert_user in H. cbn [Directory.text_column] in H.
  destruct (existsb _ (users w)) eqn:Hex; [discriminate|].
  injection H as <- <-. split; [|reflexivity].
  unfold Directory.getUserById, Directory.select_user. cbn [Directory.uuid_column].
  rewrite Hid. unfold Balance.find_user, with_user. simpl.
  assert (List.find (fun u => String.eqb (Store.user_id_of u) uid)
                    (Store.users (store w) ++ [Store.mk_user uid name address])
          = Some (Store.mk_user uid name address)) as ->; [|reflexivity].
  unfold users in Hex.
  induction (Store.users (store w)) as [|u0 l IH]; simpl.
  - rewrite String.eqb_refl. reflexivity.
  - simpl in Hex. apply orb_false_iff in Hex as [Hex Hl].
    apply orb_false_iff in Hex as [Hex _]. rewrite Hex. apply IH, Hl.
Qed.

End DirectoryProperties.

(** *** The properties on the worked example *)

Lemma listed_members_are_the_members_witness :
  exists uids,
    Forall2 (fun v u => read_uuid v = Some u)
            [VStr Walkthrough.bob_uuid; VStr Walkthrough.carol_uuid] uids
    /\ Directory.members
         (open_flat Walkthrough.alice_uuid
            (VArr [VStr Walkthrough.bob_uuid; VStr Walkthrough.carol_uuid]))
       = (Directory.members campus
          ++ map (Store.mk_member Walkthrough.group_uuid) uids)%list
    /\ Directory.groups
         (open_flat Walkthrough.alice_uuid
            (VArr [VStr Walkthrough.bob_uuid; VStr Walkthrough.carol_uuid]))
       = (Directory.groups campus ++ [flat_group Walkthrough.alice_uuid])%list
    /\ (Directory.has_member
          (open_flat Walkthrough.alice_uuid
             (VArr [VStr Walkthrough.bob_uuid; VStr Walkthrough.carol_uuid]))
          Walkthrough.group_uuid
          (Directory.group_created_by (flat_group Walkthrough.alice_uuid)) = true ->
        In (Directory.group_created_by (flat_group Walkthrough.alice_uuid)) uids
        \/ Directory.has_member campus Walkthrough.group_uuid
             (Directory.group_created_by (flat_group Walkthrough.alice_uuid)) = true).
Proof.
  apply (listed_members_are_the_members read_uuid no_text no_length
           Walkthrough.group_uuid campus
           (open_flat Walkthrough.alice_uuid
              (VArr [VStr Walkthrough.bob_uuid; VStr Walkthrough.carol_uuid]))
           (flat Walkthrough.alice_uuid
              (VArr [VStr Walkthrough.bob_uuid; VStr Walkthrough.carol_uuid]))
           (flat_group Walkthrough.alice_uuid)
           (VStr Walkthrough.bob_uuid) [VStr Walkthrough.carol_uuid]);
    reflexivity.
Defined.

Lemma creator_is_the_default_member_witness :
  Directory.members (open_flat Walkthrough.alice_uuid (VArr []))
  = (Directory.members campus
     ++ [Store.mk_member Walkthrough.group_uuid
           (Directory.group_created_by (flat_group Walkthrough.alice_uuid))])%list
  /\ Directory.groups (open_flat Walkthrough.alice_uuid (VArr []))
     = (Directory.groups campus ++ [flat_group Walkthrough.alice_uuid])%list
  /\ read_uuid (Directory.created_by (flat Walkthrough.alice_uuid (VArr [])))
     = Some (Directory.group_created_by (flat_group Walkthrough.alice_uuid)).
Proof.
  apply (creator_is_the_default_member read_uuid no_text no_length
           Walkthrough.group_uuid campus
           (open_flat Walkthrough.alice_uuid (VArr []))
           (flat Walkthrough.alice_uuid (VArr []))
           (flat_group Walkthrough.alice_uuid));
    [reflexivity|right; reflexivity|reflexivity].
Defined.

Lemma unlisted_creator_does_not_see_the_group_witness :
  Directory.getUserGroups read_uuid
    (open_flat Walkthrough.alice_uuid
       (VArr [VStr Walkthrough.bob_uuid; VStr Walkthrough.carol_uuid]))
    Walkthrough.alice_uuid
  = Directory.getUserGroups read_uuid campus Walkthrough.alice_uuid.
Proof.
  apply (unlisted_creator_does_not_see_the_group read_uuid no_text no_length
           Walkthrough.group_uuid campus
           (open_flat Walkthrough.alice_uuid
              (VArr [VStr Walkthrough.bob_uuid; VStr Walkthrough.carol_uuid]))
           (flat Walkthrough.alice_uuid
              (VArr [VStr Walkthrough.bob_uuid; VStr Walkthrough.carol_uuid]))
           (flat_group Walkthrough.alice_uuid)
           (VStr Walkthrough.bob_uuid) [VStr Walkthrough.carol_uuid]
           Walkthrough.alice_uuid);
    [reflexivity|reflexivity| |reflexivity|constructor].
  repeat constructor; discriminate.
Defined.

Lemma unknown_member_leaves_group_without_members_witness :
  exists g,
    Directory.createGroup read_uuid no_text no_length Walkthrough.group_uuid campus
      (flat Walkthrough.alice_uuid (VArr [VStr Walkthrough.bob_uuid; VStr "dave"]))
    = (internal_error, Directory.with_group campus g)
    /\ Directory.group_id_of g = Walkthrough.group_uuid
    /\ Directory.group_created_by g = Walkthrough.alice_uuid
    /\ Directory.members (Directory.with_group campus g) = Directory.members campus.
Proof.
  apply (unknown_member_leaves_group_without_members read_uuid no_text no_length
           Walkthrough.group_uuid campus
           (flat Walkthrough.alice_uuid (VArr [VStr Walkthrough.bob_uuid; VStr "dave"]))
           Walkthrough.alice_uuid [VStr Walkthrough.bob_uuid; VStr "dave"] (VStr "dave"));
    try reflexivity.
  - right. left. reflexivity.
  - intros u Hu. discriminate Hu.
Defined.

Lemma member_added_once_witness :
  Directory.addGroupMember read_uuid
    (snd (Directory.addGroupMember read_uuid (open_flat Walkthrough.alice_uuid (VArr []))
            Walkthrough.group_uuid (VStr Walkthrough.bob_uuid)))
    Walkthrough.group_uuid (VStr Walkthrough.bob_uuid)
  = (Failure 409 "User is already a member of this group",
     snd (Directory.addGroupMember read_uuid (open_flat Walkthrough.alice_uuid (VArr []))
            Walkthrough.group_uuid (VStr Walkthrough.bob_uuid))).
Proof.
  apply (member_added_once read_uuid (open_flat Walkthrough.alice_uuid (VArr []))
           _ Walkthrough.group_uuid (VStr Walkthrough.bob_uuid)
           (Store.mk_member Walkthrough.group_uuid Walkthrough.bob_uuid)).
  reflexivity.
Defined.

Lemma created_group_is_found_witness :
  exists creator us,
    Directory.getGroupById read_uuid
      (open_flat Walkthrough.alice_uuid
         (VArr [VStr Walkthrough.bob_uuid; VStr Walkthrough.carol_uuid]))
      Walkthrough.group_uuid
    = Reply 200 (Directory.mk_group_details
                   (Directory.mk_group_view (flat_group Walkthrough.alice_uuid)
                                            (Some creator))
                   (map Some us))
    /\ Store.user_id_of creator
       = Directory.group_created_by (flat_group Walkthrough.alice_uuid)
    /\ Directory.members
         (open_flat Walkthrough.alice_uuid
            (VArr [VStr Walkthrough.bob_uuid; VStr Walkthrough.carol_uuid]))
       = (Directory.members campus
          ++ map (fun u => Store.mk_member Walkthrough.group_uuid (Store.user_id_of u))
                 us)%list.
Proof.
  apply (created_group_is_found read_uuid no_text no_length
           Walkthrough.group_uuid campus
           (open_flat Walkthrough.alice_uuid
              (VArr [VStr Walkthrough.bob_uuid; VStr Walkthrough.carol_uuid]))
           (flat Walkthrough.alice_uuid
              (VArr [VStr Walkthrough.bob_uuid; VStr Walkthrough.carol_uuid]))
           (flat_group Walkthrough.alice_uuid));
    [reflexivity|reflexivity|constructor].
Defined.

Lemma email_registered_once_witness :
  Directory.createUser no_text Walkthrough.bob_uuid
    (snd (Directory.createUser no_text Walkthrough.alice_uuid
            (Directory.mk_world Store.empty [])
            (Directory.mk_user_body (VStr "alice@example.com") (VStr "Alice"))))
    (Directory.mk_user_body (VStr "alice@example.com") (VStr "Alice again"))
  = (Failure 409 "User with this email already exists",
     snd (Directory.createUser no_text Walkthrough.alice_uuid
            (Directory.mk_world Store.empty [])
            (Directory.mk_user_body (VStr "alice@example.com") (VStr "Alice")))).
Proof.
  apply (email_registered_once no_text Walkthrough.alice_uuid Walkthrough.bob_uuid
           (Directory.mk_world Store.empty []) _
           (Directory.mk_user_body (VStr "alice@example.com") (VStr "Alice"))
           (Directory.mk_user_body (VStr "alice@example.com") (VStr "Alice again"))
           alice);
    reflexivity.
Defined.

Lemma created_user_is_found_witness :
  Directory.getUserById read_uuid
    (snd (Directory.createUser no_text Walkthrough.alice_uuid
            (Directory.mk_world Store.empty [])
            (Directory.mk_user_body (VStr "alice@example.com") (VStr "Alice"))))
    Walkthrough.alice_uuid
  = Reply 200 alice
  /\ alice = Store.mk_user Walkthrough.alice_uuid "Alice" "alice@example.com".
Proof.
  apply (created_user_is_found read_uuid no_text Walkthrough.alice_uuid
           (Directory.mk_world Store.empty []) _ "Alice" "alice@example.com" alice);
    reflexivity.
Defined.

(* ===================================================================== *)
(** * From the form to the group *)
(* ===================================================================== *)

Section FormProperties.

Import Directory.

Variable uuid_of : value -> option string.
Variable text_of : value -> string.
Variable length_positive : list (string * value) -> bool.

Lemma set_of_spec (ids : list string) :
  NoDup (Form.set_of ids) /\ (forall x, In x (Form.set_of ids) <-> In x ids).
Proof.
  unfold Form.set_of.
  assert (forall seen,
             NoDup seen ->
             let out := fold_left (fun seen id => if existsb (String.eqb id) seen then seen
                                                  else (seen ++ [id])%list) ids seen in
             NoDup out /\ (forall x, In x out <-> In x seen \/ In x ids)) as G.
  { induction ids as [|id ids IH]; intros seen Hseen; simpl.
    - split; [exact Hseen|]. intros x. tauto.
    - destruct (existsb (String.eqb id) seen) eqn:E.
      + destruct (IH seen Hseen) as [A B]. split; [exact A|].
        intros x. rewrite B. apply existsb_exists in E as (y & Hy & Ey).
        apply String.eqb_eq in Ey. subst y. split; [tauto|].
        intros [H|[<-|H]]; tauto.
      + assert (~ In id seen) as Hnot.
        { intros Hin. assert (existsb (String.eqb id) seen = true) as C; [|congruence].
          apply existsb_exists. exists id. split; [exact Hin|apply String.eqb_refl]. }
        assert (NoDup (seen ++ [id])) as Hnd.
        { apply NoDup_app. split; [exact Hseen|]. split.
          - intros x Hx Hx'. apply list_elem_of_In in Hx, Hx'.
            destruct Hx' as [<-|[]]. contradiction.
          - repeat constructor. intros Hin. inversion Hin. }
        destruct (IH _ Hnd) as [A B]. split; [exact A|].
        intros x. rewrite B, in_app_iff. simpl. tauto. }
  destruct (G [] (NoDup_nil_2)) as [A B]. split; [exact A|].
  intros x. rewrite B. simpl. tauto.
Qed.

Lemma no_member_of_unknown_group (w : world) (gid uid : string) :
  members_in_groups w -> has_group w gid = false -> has_member w gid uid = false.
Proof.
  unfold members_in_groups, has_member. intros Hwf Hg.
  induction Hwf as [|m l Hm _ IH]; [reflexivity|]. simpl.
  destruct (String.eqb_spec (Store.member_group_id m) gid) as [E|E]; simpl; [|exact IH].
  rewrite E in Hm. congruence.
Qed.

Lemma insert_members_distinct (gid : string) (ids : list string) :
  uuid_of (VStr gid) = Some gid ->
  NoDup ids ->
  forall w,
    has_group w gid = true ->
    Forall (fun id => known_user uuid_of w id /\ has_member w gid id = false) ids ->
    Directory.insert_members uuid_of w (map (fun v => (VStr gid, v)) (map VStr ids))
    = Some (with_members w (map (Store.mk_member gid) ids)).
Proof.
  intros Hgid Hnd. induction Hnd as [|id ids Hnot Hnd IH]; intros w Hg Hall.
  - reflexivity.
  - inversion Hall as [|? ? [[Hid Hu] Hm] Hrest]; subst.
    cbn [map Directory.insert_members]. unfold Directory.insert_member.
    cbn [Directory.uuid_column]. rewrite Hgid, Hid, Hm, Hg, Hu. cbn [andb].
    rewrite IH; [reflexivity|exact Hg|].
    apply List.Forall_forall. intros id' Hin.
    rewrite List.Forall_forall in Hrest. destruct (Hrest id' Hin) as [[A B] C].
    split; [split; assumption|].
    unfold has_member, members, with_member in *. simpl. rewrite existsb_app, C. simpl.
    destruct (String.eqb_spec id id') as [E|E]; [|rewrite andb_false_r; reflexivity].
    subst id'. apply list_elem_of_In in Hin. contradiction.
Qed.

(** A group sent by the form is created, and its creator is one of its
    members: when the current user and the selected members are users of
    the store, the request is answered with 201 whether or not the
    selection names the creator, and the members of the new group are the
    creator followed by the other selected users, each once. *)
Theorem form_group_is_created_with_its_creator (gid : string) (w : world)
    (u : Store.user) (name description : string) (selectedMembers : list string) :
  name <> "" ->
  Store.user_id_of u <> "" ->
  Forall (known_user uuid_of w) (Store.user_id_of u :: selectedMembers) ->
  uuid_of (VStr gid) = Some gid ->
  has_group w gid = false ->
  members_in_groups w ->
  exists b others,
    Form.handleSubmit (Some u) name description selectedMembers = Some b
    /\ Directory.createGroup uuid_of text_of length_positive gid w b
       = (Reply 201 (mk_group gid name description (Store.user_id_of u)),
          with_members (with_group w (mk_group gid name description (Store.user_id_of u)))
                       (map (Store.mk_member gid) (Store.user_id_of u :: others)))
    /\ NoDup (Store.user_id_of u :: others)
    /\ (forall id, In id others <-> In id selectedMembers /\ id <> Store.user_id_of u).
Proof.
  intros Hn Hc Hknown Hgid Hfresh Hwf.
  set (c := Store.user_id_of u) in *.
  destruct (set_of_spec (c :: selectedMembers)) as [Hnd Hin].
  assert (exists others, Form.set_of (c :: selectedMembers) = c :: others) as [others Hset].
  { unfold Form.set_of. cbn [fold_left existsb app].
    assert (forall l seen, exists rest,
               fold_left (fun seen id => if existsb (String.eqb id) seen then seen
                                         else (seen ++ [id])%list) l (c :: seen)
               = c :: rest) as G.
    { induction l as [|x l IH]; intros seen; cbn [fold_left]; [eauto|].
      destruct (existsb (String.eqb x) (c :: seen)); [apply IH|].
      apply (IH (seen ++ [x])%list). }
    apply G. }
  exists (mk_group_body (VStr name) (VStr description) (VStr c)
                        (VArr (map VStr (Form.set_of (c :: selectedMembers))))), others.
  split; [reflexivity|]. rewrite Hset in *. split; [|split; [exact Hnd|]].
  - inversion Hknown as [|? ? [Hcid Hcu] Hsel]; subst.
    unfold Directory.createGroup, JS.falsy. cbn [Directory.name Directory.created_by
      Directory.description Directory.member_ids JS.truthy].
    destruct (String.eqb_spec name "") as [E|_]; [contradiction|].
    destruct (String.eqb_spec c "") as [E|_]; [contradiction|]. cbn [negb orb].
    unfold Directory.insert_group.
    assert (Directory.text_column text_of
              (if negb (String.eqb description "") then VStr description else VStr "")
            = Some description) as ->.
    { destruct (String.eqb_spec description "") as [->|_]; reflexivity. }
    cbn [Directory.text_column Directory.uuid_column]. rewrite Hcid, Hfresh, Hcu.
    cbn [group_id_of]. unfold Directory.member_rows.
    cbn [Directory.has_members map length Nat.eqb negb].
    change (VStr gid, VStr c) with ((fun v => (VStr gid, v)) (VStr c)).
    change ((fun v => (VStr gid, v)) (VStr c)
            :: map (fun user_id => (VStr gid, user_id)) (map VStr others))
      with (map (fun v => (VStr gid, v)) (map VStr (c :: others))).
    rewrite (insert_members_distinct gid (c :: others) Hgid Hnd); [reflexivity| |].
    + unfold has_group, with_group. simpl. rewrite existsb_app. simpl.
      rewrite String.eqb_refl, orb_true_r. reflexivity.
    + apply List.Forall_forall. intros id Hid.
      apply Hin in Hid. rewrite List.Forall_forall in Hknown.
      destruct (Hknown id Hid) as [A B]. split; [split; [exact A|exact B]|].
      apply (no_member_of_unknown_group w gid id Hwf Hfresh).
  - intros id. inversion Hnd as [|? ? Hnot _]; subst. split.
    + intros Hid. assert (In id (c :: selectedMembers)) as H by (apply Hin; right; exact Hid).
      assert (id <> c) as Hne.
      { intros ->. apply Hnot, list_elem_of_In, Hid. }
      destruct H as [H|H]; [congruence|]. split; assumption.
    + intros [Hid Hne]. assert (In id (c :: others)) as H by (apply Hin; right; exact Hid).
      destruct H as [H|H]; [congruence|exact H].
Qed.

End FormProperties.

Lemma form_group_is_created_with_its_creator_witness :
  exists b others,
    Form.handleSubmit (Some alice) "Flat" "" [Walkthrough.bob_uuid; Walkthrough.alice_uuid]
    = Some b
    /\ Directory.createGroup read_uuid no_text no_length Walkthrough.group_uuid campus b
       = (Reply 201 (Directory.mk_group Walkthrough.group_uuid "Flat" ""
                                        (Store.user_id_of alice)),
          with_members
            (Directory.with_group campus
               (Directory.mk_group Walkthrough.group_uuid "Flat" ""
                                   (Store.user_id_of alice)))
            (map (Store.mk_member Walkthrough.group_uuid)
                 (Store.user_id_of alice :: others)))
    /\ NoDup (Store.user_id_of alice :: others)
    /\ (forall id, In id others
                   <-> In id [Walkthrough.bob_uuid; Walkthrough.alice_uuid]
                       /\ id <> Store.user_id_of alice).
Proof.
  apply (form_group_is_created_with_its_creator read_uuid no_text no_length
           Walkthrough.group_uuid campus alice "Flat" ""
           [Walkthrough.bob_uuid; Walkthrough.alice_uuid]);
    try reflexivity; try discriminate.
  - repeat constructor.
  - constructor.
Defined.

(* ===================================================================== *)
(** * Binary64 rounding *)
(* ===================================================================== *)

Section Rounding.

Import Double.

Lemma pow2_pos (e : Z) : (0 < pow2 e)%Q.
Proof. apply Qpower_0_lt. reflexivity. Qed.

Lemma pow2_add (a b : Z) : (pow2 (a + b) == pow2 a * pow2 b)%Q.
Proof. apply Qpower_plus. discriminate. Qed.

Lemma pow2_nat (e : Z) : (0 <= e)%Z -> (pow2 e == inject_Z (2 ^ e))%Q.
Proof. intros H. unfold pow2. rewrite Zpower_Qpower by exact H. reflexivity. Qed.

Lemma pow2_opp (e : Z) : (pow2 (- e) == / pow2 e)%Q.
Proof. apply Qpower_opp. Qed.

(** [ilog2 q] is not above the binary logarithm of [q]. *)
Lemma ilog2_le (q : Q) : (0 < q)%Q -> (pow2 (ilog2 q) <= q)%Q.
Proof.
  intros Hq. unfold ilog2. destruct q as [n d]. cbn [Qnum Qden].
  set (a := Z.log2 n). set (b := Z.log2 (Z.pos d)).
  destruct (Qle_bool (pow2 (a - b)) (n # d)) eqn:E; [apply Qle_bool_iff, E|]. clear E.
  assert (0 < n)%Z as Hn.
  { unfold Qlt in Hq. simpl in Hq. lia. }
  pose proof (Z.log2_spec n Hn) as [Ha _]. fold a in Ha.
  assert (0 < Z.pos d)%Z as Hd by lia.
  pose proof (Z.log2_spec (Z.pos d) Hd) as [_ Hb]. fold b in Hb.
  assert (0 <= a)%Z as Ha0 by apply Z.log2_nonneg.
  assert (0 <= b)%Z as Hb0 by apply Z.log2_nonneg.
  replace (a - b - 1)%Z with (a + - (b + 1))%Z by lia.
  rewrite pow2_add, pow2_opp, (pow2_nat a Ha0), (pow2_nat (b + 1)) by lia.
  rewrite (Qmake_Qdiv n d).
  assert (0 < 2 ^ (b + 1))%Z as Hp by (apply Z.pow_pos_nonneg; lia).
  apply Qle_shift_div_l;
    [change 0%Q with (inject_Z 0); rewrite <- Zlt_Qlt; exact Hd|].
  assert (inject_Z (2 ^ a) * / inject_Z (2 ^ (b + 1)) * inject_Z (Z.pos d)
          == inject_Z (2 ^ a) * inject_Z (Z.pos d) / inject_Z (2 ^ (b + 1)))%Q as ->.
  { field. intros H. apply (inject_Z_injective (2 ^ (b + 1)) 0) in H. lia. }
  apply Qle_shift_div_r;
    [change 0%Q with (inject_Z 0); rewrite <- Zlt_Qlt; exact Hp|].
  rewrite <- !inject_Z_mult, <- Zle_Qle.
  replace (Z.succ b) with (b + 1)%Z in Hb by lia. nia.
Qed.

(** The nearest integer is within one half. *)
Lemma nearest_even_close (q : Q) : (Qabs (inject_Z (nearest_even q) - q) <= 1 # 2)%Q.
Proof.
  unfold nearest_even.
  pose proof (Qfloor_le q) as Hlo. pose proof (Qlt_floor q) as Hhi.
  rewrite inject_Z_plus in Hhi. change (inject_Z 1) with 1%Q in Hhi.
  apply Qabs_Qle_condition.
  destruct (q - inject_Z (Qfloor q) ?= 1 # 2)%Q eqn:E.
  - apply Qeq_alt in E. destruct (Z.even (Qfloor q)).
    + split; lra.
    + rewrite inject_Z_plus. change (inject_Z 1) with 1%Q. split; lra.
  - apply Qlt_alt in E. split; lra.
  - apply Qgt_alt in E. rewrite inject_Z_plus. change (inject_Z 1) with 1%Q. split; lra.
Qed.

Lemma quantum_pos (q : Q) : (0 < quantum q)%Q.
Proof. apply pow2_pos. Qed.

(** In the normal range the spacing is at most [q * 2^-52]. *)
Lemma quantum_le (q : Q) :
  (pow2 (-1022) <= q)%Q -> (quantum q <= q * pow2 (-52))%Q.
Proof.
  intros Hq. pose proof (pow2_pos (-1022)) as H0.
  assert (0 < q)%Q as Hpos by lra.
  pose proof (ilog2_le q Hpos) as Hl.
  pose proof (pow2_pos (-52)) as H52.
  unfold quantum.
  replace (Z.max (ilog2 q) (-1022) - 52)%Z with (Z.max (ilog2 q) (-1022) + -52)%Z by lia.
  rewrite pow2_add. apply Qmult_le_compat_r; [|lra].
  destruct (Z.max_spec (ilog2 q) (-1022)) as [[_ ->]|[_ ->]]; assumption.
Qed.

(** The rounding of a positive number of the normal range, far from
    overflow: a finite value within the relative error [2^-53]. *)
Lemma round_close (q : Q) :
  (pow2 (-1022) <= q)%Q -> (q <= pow2 1023)%Q ->
  exists r, round q = Fin r /\ (Qabs (r - q) <= q * pow2 (-53))%Q.
Proof.
  intros Hlo Hhi. pose proof (pow2_pos (-1022)) as H0.
  assert (0 < q)%Q as Hpos by lra.
  unfold round. apply Qgt_alt in Hpos as Hc. rewrite Hc. unfold round_pos.
  set (u := quantum q). set (m := nearest_even (q / u)).
  pose proof (quantum_pos q) as Hu. fold u in Hu.
  pose proof (quantum_le q Hlo) as Hule. fold u in Hule.
  pose proof (nearest_even_close (q / u)) as Hm. fold m in Hm.
  assert (Qabs (inject_Z m * u - q) <= u * (1 # 2))%Q as Herr.
  { assert (inject_Z m * u - q == (inject_Z m - q / u) * u)%Q as ->
        by (field; lra).
    rewrite Qabs_Qmult, (Qabs_pos u) by lra.
    rewrite (Qmult_comm u). apply Qmult_le_compat_r; [exact Hm|lra]. }
  assert (pow2 (-53) == pow2 (-52) * (1 # 2))%Q as H53.
  { change (-53)%Z with (-52 + -1)%Z. rewrite pow2_add. reflexivity. }
  assert (Qabs (inject_Z m * u - q) <= q * pow2 (-53))%Q as Hrel.
  { rewrite H53. eapply Qle_trans; [exact Herr|].
    rewrite Qmult_assoc. apply Qmult_le_compat_r; [exact Hule|lra]. }
  assert (Qle_bool (pow2 1024) (inject_Z m * u) = false) as ->.
  { destruct (Qle_bool (pow2 1024) (inject_Z m * u)) eqn:E; [|reflexivity].
    apply Qle_bool_iff in E. exfalso.
    apply Qabs_Qle_condition in Hrel as [_ Hup].
    assert (pow2 1024 == 2 * pow2 1023)%Q as H24.
    { change 1024%Z with (1 + 1023)%Z. rewrite pow2_add. reflexivity. }
    assert (q * pow2 (-53) <= q * (1 # 2))%Q as Hsmall.
    { apply Qmult_le_l; [exact Hpos|]. vm_compute. discriminate. }
    lra. }
  exists (Qred (inject_Z m * u)). split; [reflexivity|].
  rewrite Qred_correct. exact Hrel.
Qed.

End Rounding.

Section RoundingError.

Import Double.

(** The spacing at [q] is at most [q * 2^-52], or the spacing of the
    subnormal range. *)
Lemma quantum_bound (q : Q) :
  (0 < q)%Q -> (quantum q <= q * pow2 (-52) + pow2 (-1074))%Q.
Proof.
  intros Hpos. pose proof (ilog2_le q Hpos) as Hl.
  pose proof (pow2_pos (-52)) as H52. pose proof (pow2_pos (-1074)) as H74.
  unfold quantum.
  destruct (Z.max_spec (ilog2 q) (-1022)) as [[_ ->]|[_ ->]].
  - change (pow2 (-1022 - 52)) with (pow2 (-1074)).
    assert (0 <= q * pow2 (-52))%Q by (apply Qmult_le_0_compat; lra). lra.
  - replace (ilog2 q - 52)%Z with (ilog2 q + -52)%Z by lia. rewrite pow2_add.
    assert (pow2 (ilog2 q) * pow2 (-52) <= q * pow2 (-52))%Q
      by (apply Qmult_le_compat_r; lra). lra.
Qed.

Lemma round_pos_error (q : Q) :
  (0 < q)%Q -> (q <= pow2 1023)%Q ->
  exists r, round_pos q = Fin r
            /\ (Qabs (r - q) <= q * pow2 (-53) + pow2 (-1075))%Q.
Proof.
  intros Hpos Hhi. unfold round_pos.
  set (u := quantum q). set (m := nearest_even (q / u)).
  pose proof (quantum_pos q) as Hu. fold u in Hu.
  pose proof (quantum_bound q Hpos) as Hule. fold u in Hule.
  pose proof (nearest_even_close (q / u)) as Hm. fold m in Hm.
  assert (Qabs (inject_Z m * u - q) <= u * (1 # 2))%Q as Herr.
  { assert (inject_Z m * u - q == (inject_Z m - q / u) * u)%Q as ->
        by (field; lra).
    rewrite Qabs_Qmult, (Qabs_pos u) by lra.
    rewrite (Qmult_comm u). apply Qmult_le_compat_r; [exact Hm|lra]. }
  assert (pow2 (-53) == pow2 (-52) * (1 # 2))%Q as H53.
  { change (-53)%Z with (-52 + -1)%Z. rewrite pow2_add. reflexivity. }
  assert (pow2 (-1075) == pow2 (-1074) * (1 # 2))%Q as H75.
  { change (-1075)%Z with (-1074 + -1)%Z. rewrite pow2_add. reflexivity. }
  assert (Qabs (inject_Z m * u - q) <= q * pow2 (-53) + pow2 (-1075))%Q as Hrel.
  { rewrite H53, H75. eapply Qle_trans; [exact Herr|].
    assert (u * (1 # 2) <= (q * pow2 (-52) + pow2 (-1074)) * (1 # 2))%Q
      by (apply Qmult_le_compat_r; lra).
    lra. }
  assert (Qle_bool (pow2 1024) (inject_Z m * u) = false) as ->.
  { destruct (Qle_bool (pow2 1024) (inject_Z m * u)) eqn:E; [|reflexivity].
    apply Qle_bool_iff in E. exfalso.
    apply Qabs_Qle_condition in Hrel as [_ Hup].
    assert (pow2 1024 == 2 * pow2 1023)%Q as H24.
    { change 1024%Z with (1 + 1023)%Z. rewrite pow2_add. reflexivity. }
    assert (q * pow2 (-53) <= q * (1 # 4))%Q as Hsmall.
    { apply Qmult_le_l; [exact Hpos|]. vm_compute. discriminate. }
    assert (pow2 (-1075) <= 1)%Q as Hone by (vm_compute; discriminate).
    assert (4 <= pow2 1023)%Q as Hbig by (vm_compute; discriminate).
    lra. }
  exists (Qred (inject_Z m * u)). split; [reflexivity|].
  rewrite Qred_correct. exact Hrel.
Qed.

(** Every real number up to [2^1023] in magnitude rounds to a finite
    binary64 value, within the relative error [2^-53] and the absolute
    error [2^-1075] of the subnormal range. *)
Lemma round_error (q : Q) :
  (Qabs q <= pow2 1023)%Q ->
  exists r, round q = Fin r
            /\ (Qabs (r - q) <= Qabs q * pow2 (-53) + pow2 (-1075))%Q.
Proof.
  intros Hq. unfold round.
  pose proof (pow2_pos (-1075)) as H75.
  destruct (q ?= 0)%Q eqn:E.
  - apply Qeq_alt in E. exists 0%Q. split; [reflexivity|].
    rewrite E. change (Qabs (0 - 0)) with 0%Q. change (Qabs 0) with 0%Q. lra.
  - apply Qlt_alt in E.
    rewrite Qabs_neg in Hq by lra.
    destruct (round_pos_error (- q)) as (r & -> & Hr); [lra|exact Hq|].
    exists (- r)%Q. split; [reflexivity|].
    rewrite (Qabs_neg q) by lra.
    assert (- r - q == - (r - - q))%Q as -> by ring. rewrite Qabs_opp. exact Hr.
  - apply Qgt_alt in E.
    rewrite Qabs_pos in Hq by lra.
    destruct (round_pos_error q E Hq) as (r & -> & Hr).
    exists r. split; [reflexivity|]. rewrite (Qabs_pos q) by lra. exact Hr.
Qed.

(** Reading a property of a parsed value, and [parseFloat] on it. *)
Lemma assoc_json (name : string) (fields : list (string * value)) :
  assoc name (map (fun '(k, x) => (k, json x)) fields)
  = option_map json (assoc name fields).
Proof.
  induction fields as [|[k x] l IH]; simpl; [reflexivity|].
  destruct (String.eqb name k); [reflexivity|exact IH].
Qed.

Lemma get_json (v : value) (name : string) :
  get (json v) name = option_map json (get v name).
Proof.
  destruct v; simpl; try reflexivity.
  rewrite assoc_json. destruct (assoc name fields); reflexivity.
Qed.

Lemma parseFloat_json : forall v, parseFloat (json v) = rounded (JS.parseFloat v).
Proof.
  fix IH 1. intros [| | | | | |[|x l]]; simpl; try reflexivity. apply IH.
Qed.

End RoundingError.
